(** * TARDIS-em: logging configuration and package initialisation

    Shallow embedding of [tardis_em/utils/logging_config.py] and of the body
    of [tardis_em/__init__.py].  The two files only drive the Python
    platform: the [logging] registry, the filesystem, the clock, the process
    environment.  The first half of this file is an executable model of the
    platform operations the two files call; the second half is the code
    itself, written in a state-and-exception monad over that model, and the
    theorems about it. *)

From Stdlib Require Import ZArith Ascii String.
From stdpp Require Import base option gmap strings list fin_maps.

Local Open Scope Z_scope.
Local Open Scope string_scope.

(** ** Paths

    A path value (a [str] handed to [open], or a [pathlib.Path]) is kept in
    resolved form: the components below the filesystem root, innermost
    first, so that the parent of a path is its tail and [p / c] is a cons. *)

Abbreviation path := (list string) (only parsing).

Definition path_div (p : path) (c : string) : path := c :: p.
Infix "//" := path_div (at level 40, left associativity).

Definition path_parent (p : path) : path := tail p.

(** ** Clock: [datetime] and [strftime] *)

Record datetime : Type := Datetime {
  year : nat; month : nat; day : nat;
  hour : nat; minute : nat; second : nat
}.

Definition digit (n : nat) : ascii := ascii_of_nat (48 + n mod 10).

Definition pad2 (n : nat) : string :=
  String (digit (n / 10)) (String (digit n) "").

Definition pad4 (n : nat) : string :=
  String (digit (n / 1000)) (String (digit (n / 100)) (pad2 n)).

(** One conversion directive of [strftime]; the six numeric ones are all the
    source uses.  Any other letter is kept as written. *)
Definition directive (d : ascii) (t : datetime) : string :=
  if Ascii.eqb d "Y" then pad4 (year t)
  else if Ascii.eqb d "m" then pad2 (month t)
  else if Ascii.eqb d "d" then pad2 (day t)
  else if Ascii.eqb d "H" then pad2 (hour t)
  else if Ascii.eqb d "M" then pad2 (minute t)
  else if Ascii.eqb d "S" then pad2 (second t)
  else String "%" (String d "").

Fixpoint strftime (fmt : string) (t : datetime) : string :=
  match fmt with
  | EmptyString => ""
  | String c rest =>
      if Ascii.eqb c "%" then
        match rest with
        | String d rest' => directive d t +:+ strftime rest' t
        | EmptyString => "%"
        end
      else String c (strftime rest t)
  end.

(** ** Filesystem *)

Inductive stream : Type := Stdout | Stderr.

Record Formatter : Type := mkFormatter { fmt : string; datefmt : string }.

Record LogRecord : Type := mkLogRecord {
  r_name : string; r_levelno : Z; r_msg : string; r_created : datetime
}.

(** What a handler writes: the record together with the formatter that
    renders it ([None] is the library's default formatter). *)
Abbreviation line := (option Formatter * LogRecord)%type (only parsing).

Inductive node : Type :=
  | Dir (writable : bool)
  | File (writable : bool) (content : list line).

Inductive oserror : Type :=
  | FileNotFoundError | FileExistsError | NotADirectoryError
  | IsADirectoryError | PermissionError.

Inductive exn : Type := OSError (kind : oserror) (p : path).

Inductive Res (A : Type) : Type :=
  | Ok (a : A)
  | Raise (e : exn).
Arguments Ok {A} a.
Arguments Raise {A} e.

Definition is_dir (fs : gmap path node) (p : path) : bool :=
  match fs !! p with Some (Dir _) => true | _ => false end.

(** [os.mkdir]: the path must not exist and its parent must be a writable
    directory. *)
Definition os_mkdir (fs : gmap path node) (p : path) : Res (gmap path node) :=
  match fs !! p with
  | Some _ => Raise (OSError FileExistsError p)
  | None =>
      match p with
      | [] => Raise (OSError FileNotFoundError p)
      | _ :: parent =>
          match fs !! parent with
          | None => Raise (OSError FileNotFoundError p)
          | Some (File _ _) => Raise (OSError NotADirectoryError p)
          | Some (Dir w) =>
              if w then Ok (<[p := Dir true]> fs)
              else Raise (OSError PermissionError p)
          end
      end
  end.

(** [Path.mkdir(parents=False, exist_ok=True)]: an [OSError] is swallowed
    only when the path is a directory already. *)
Definition mkdir_exist_ok (fs : gmap path node) (p : path) : Res (gmap path node) :=
  match os_mkdir fs p with
  | Ok fs' => Ok fs'
  | Raise (OSError FileNotFoundError q) => Raise (OSError FileNotFoundError q)
  | Raise e => if is_dir fs p then Ok fs else Raise e
  end.

(** [Path.mkdir(parents=True, exist_ok=True)], as pathlib writes it: try
    [os.mkdir]; on [FileNotFoundError] make the parent first (unless the
    path is its own parent) and retry without [parents]; on any other
    [OSError] re-raise unless the path is a directory. *)
Fixpoint Path_mkdir (fs : gmap path node) (p : path) : Res (gmap path node) :=
  match os_mkdir fs p with
  | Ok fs' => Ok fs'
  | Raise (OSError FileNotFoundError q) =>
      match p with
      | [] => Raise (OSError FileNotFoundError q)
      | _ :: parent =>
          match Path_mkdir fs parent with
          | Ok fs1 => mkdir_exist_ok fs1 p
          | Raise e => Raise e
          end
      end
  | Raise e => if is_dir fs p then Ok fs else Raise e
  end.

(** [open(p, 'a')], which [logging.FileHandler] calls when it is built. *)
Definition open_append (fs : gmap path node) (p : path) : Res (gmap path node) :=
  match fs !! p with
  | Some (Dir _) => Raise (OSError IsADirectoryError p)
  | Some (File w _) => if w then Ok fs else Raise (OSError PermissionError p)
  | None =>
      match fs !! path_parent p with
      | None => Raise (OSError FileNotFoundError p)
      | Some (File _ _) => Raise (OSError NotADirectoryError p)
      | Some (Dir w) =>
          if w then Ok (<[p := File true []]> fs)
          else Raise (OSError PermissionError p)
      end
  end.

(** A write through an open file object appends to the file it was opened
    on; when that path no longer names a file the bytes are lost. *)
Definition write_file (fs : gmap path node) (p : path) (l : line) : gmap path node :=
  match fs !! p with
  | Some (File w c) => <[p := File w (c ++ [l])]> fs
  | _ => fs
  end.

(** ** The [logging] library: loggers, handlers, the registry *)

Definition NOTSET : Z := 0.
Definition INFO : Z := 20.
Definition WARNING : Z := 30.

Inductive handler_kind : Type :=
  | StreamHandler (out : stream)
  | FileHandler (baseFilename : path).

(** Handlers are objects: a logger holds references into the handler store,
    and one handler may hang on several loggers. *)
Abbreviation href := nat (only parsing).

Record Handler : Type := mkHandler {
  h_kind : handler_kind;
  h_level : Z;
  h_formatter : option Formatter
}.

Record Logger : Type := mkLogger {
  level : Z;
  propagate : bool;
  disabled : bool;
  handlers : list href
}.

(** The root logger is registered under the name ["root"]; [getLogger]
    returns it for [None], for the empty string and for ["root"]. *)
Definition root_name : string := "root".

Definition resolve (name : option string) : string :=
  match name with
  | None => root_name
  | Some n => if String.eqb n "" then root_name else n
  end.

(** A logger as [getLogger] first creates it: the root logger starts at
    [WARNING], every other one at [NOTSET]. *)
Definition fresh_logger (key : string) : Logger :=
  {| level := if String.eqb key root_name then WARNING else NOTSET;
     propagate := true; disabled := false; handlers := [] |}.

Record State : Type := mkState {
  loggerDict : gmap string Logger;
  hstore : gmap href Handler;
  next_href : href;
  manager_disable : Z;
  fs : gmap path node;
  stdout : list line;
  stderr : list line;
  environ : gmap string string;
  home : path;
  now : datetime
}.

Definition set_loggerDict (f : gmap string Logger → gmap string Logger) (s : State) : State :=
  mkState (f (loggerDict s)) (hstore s) (next_href s) (manager_disable s)
          (fs s) (stdout s) (stderr s) (environ s) (home s) (now s).

Definition set_hstore (f : gmap href Handler → gmap href Handler) (s : State) : State :=
  mkState (loggerDict s) (f (hstore s)) (next_href s) (manager_disable s)
          (fs s) (stdout s) (stderr s) (environ s) (home s) (now s).

Definition set_next_href (n : href) (s : State) : State :=
  mkState (loggerDict s) (hstore s) n (manager_disable s)
          (fs s) (stdout s) (stderr s) (environ s) (home s) (now s).

Definition set_fs (f : gmap path node) (s : State) : State :=
  mkState (loggerDict s) (hstore s) (next_href s) (manager_disable s)
          f (stdout s) (stderr s) (environ s) (home s) (now s).

Definition set_stdout (l : list line) (s : State) : State :=
  mkState (loggerDict s) (hstore s) (next_href s) (manager_disable s)
          (fs s) l (stderr s) (environ s) (home s) (now s).

Definition set_stderr (l : list line) (s : State) : State :=
  mkState (loggerDict s) (hstore s) (next_href s) (manager_disable s)
          (fs s) (stdout s) l (environ s) (home s) (now s).

Definition set_environ (f : gmap string string → gmap string string) (s : State) : State :=
  mkState (loggerDict s) (hstore s) (next_href s) (manager_disable s)
          (fs s) (stdout s) (stderr s) (f (environ s)) (home s) (now s).

(** The logger a name stands for, whether or not [getLogger] has already
    put it in the registry. *)
Definition logger_at (s : State) (key : string) : Logger :=
  default (fresh_logger key) (loggerDict s !! key).

(** ** The monad: state, and exceptions that keep the state reached *)

Definition M (A : Type) : Type := State → Res A * State.

#[global] Instance M_ret : MRet M := λ A a s, (Ok a, s).

#[global] Instance M_bind : MBind M := λ A B f m s,
  match m s with
  | (Ok a, s') => f a s'
  | (Raise e, s') => (Raise e, s')
  end.

Definition gets {A} (f : State → A) : M A := λ s, (Ok (f s), s).
Definition modify (f : State → State) : M unit := λ s, (Ok tt, f s).
Definition raise {A} (e : exn) : M A := λ s, (Raise e, s).

(** Run a filesystem operation on the state's filesystem. *)
Definition lift_fs (op : gmap path node → Res (gmap path node)) : M unit := λ s,
  match op (fs s) with
  | Ok fs' => (Ok tt, set_fs fs' s)
  | Raise e => (Raise e, s)
  end.

(** *** Logger and handler methods *)

Definition getLogger (name : option string) : M string :=
  let key := resolve name in
  modify (λ s, set_loggerDict (λ d, <[key := logger_at s key]> d) s);;
  mret key.

Definition update_logger (key : string) (f : Logger → Logger) : M unit :=
  modify (λ s, set_loggerDict (λ d, <[key := f (logger_at s key)]> d) s).

Definition Logger_setLevel (key : string) (lvl : Z) : M unit :=
  update_logger key (λ l, mkLogger lvl (propagate l) (disabled l) (handlers l)).

Definition Logger_set_propagate (key : string) (b : bool) : M unit :=
  update_logger key (λ l, mkLogger (level l) b (disabled l) (handlers l)).

Definition Logger_handlers_clear (key : string) : M unit :=
  update_logger key (λ l, mkLogger (level l) (propagate l) (disabled l) []).

(** [addHandler] appends unless the very same handler object is there. *)
Definition Logger_addHandler (key : string) (h : href) : M unit :=
  update_logger key (λ l,
    mkLogger (level l) (propagate l) (disabled l)
             (if bool_decide (h ∈ handlers l) then handlers l else handlers l ++ [h])).

Definition new_handler (k : handler_kind) : M href :=
  r ← gets next_href;
  modify (λ s, set_next_href (S r) (set_hstore (λ m, <[r := mkHandler k NOTSET None]> m) s));;
  mret r.

Definition new_StreamHandler (out : stream) : M href :=
  new_handler (StreamHandler out).

(** [logging.FileHandler(filename)] opens the file for appending at once
    (no [delay]), so it fails where [open] fails, before any handler object
    exists. *)
Definition new_FileHandler (filename : path) : M href :=
  lift_fs (λ f, open_append f filename);;
  new_handler (FileHandler filename).

Definition update_handler (h : href) (f : Handler → Handler) : M unit :=
  modify (set_hstore (λ m, alter f h m)).

Definition Handler_setLevel (h : href) (lvl : Z) : M unit :=
  update_handler h (λ x, mkHandler (h_kind x) lvl (h_formatter x)).

Definition Handler_setFormatter (h : href) (f : Formatter) : M unit :=
  update_handler h (λ x, mkHandler (h_kind x) (h_level x) (Some f)).

(** *** The logger hierarchy

    [ancestors name] lists the dotted prefixes of [name] the registry looks
    at when it links a logger to its parent, nearest first, found as the
    library does with [rfind]: after a dot at position [i] the search goes
    on strictly below [i - 1]. *)

Definition dot_at (name : string) (k : nat) : bool :=
  match String.get k name with
  | Some c => Ascii.eqb c "."
  | None => false
  end.

Fixpoint rfind_prefixes (name : string) (stop : nat) : list string :=
  match stop with
  | O => []
  | S k =>
      if dot_at name k then
        match k with
        | O => []
        | S j => String.substring 0 k name :: rfind_prefixes name j
        end
      else rfind_prefixes name k
  end.

Definition ancestors (name : string) : list string :=
  rfind_prefixes name (String.length name).

(** The loggers a record travels through: the logger itself, its dotted
    ancestors, the root.  An ancestor that was never created behaves as a
    fresh logger does (no level, no handlers, propagating), which is how the
    registry's placeholders are skipped. *)
Definition chain (key : string) : list string :=
  if String.eqb key root_name then [key]
  else key :: filter (λ a, a ≠ root_name) (ancestors key) ++ [root_name].

Fixpoint effective_level (s : State) (ks : list string) : Z :=
  match ks with
  | [] => NOTSET
  | k :: ks' =>
      if Z.eqb (level (logger_at s k)) 0 then effective_level s ks'
      else level (logger_at s k)
  end.

Definition getEffectiveLevel (s : State) (key : string) : Z :=
  effective_level s (chain key).

Definition isEnabledFor (s : State) (key : string) (lvl : Z) : bool :=
  if disabled (logger_at s key) then false
  else if Z.leb lvl (manager_disable s) then false
  else Z.leb (getEffectiveLevel s key) lvl.

(** The handlers [callHandlers] visits: those of each logger up the chain,
    until one does not propagate. *)
Fixpoint chain_handlers (s : State) (ks : list string) : list href :=
  match ks with
  | [] => []
  | k :: ks' =>
      handlers (logger_at s k)
      ++ (if propagate (logger_at s k) then chain_handlers s ks' else [])
  end.

Definition emit (k : handler_kind) (l : line) (s : State) : State :=
  match k with
  | StreamHandler Stdout => set_stdout (stdout s ++ [l]) s
  | StreamHandler Stderr => set_stderr (stderr s ++ [l]) s
  | FileHandler p => set_fs (write_file (fs s) p l) s
  end.

(** One handler offered one record: it takes it when the record's level
    reaches its own. *)
Definition handle_one (r : LogRecord) (s : State) (h : href) : State :=
  match hstore s !! h with
  | Some x =>
      if Z.leb (h_level x) (r_levelno r) then emit (h_kind x) (h_formatter x, r) s
      else s
  | None => s
  end.

(** [Logger.callHandlers], with the library's handler of last resort
    (standard error, [WARNING]) when the chain holds no handler at all. *)
Definition callHandlers (key : string) (r : LogRecord) (s : State) : State :=
  match chain_handlers s (chain key) with
  | [] => if Z.leb WARNING (r_levelno r) then emit (StreamHandler Stderr) (None, r) s else s
  | hs => foldl (handle_one r) s hs
  end.

(** [logger.log(lvl, msg)] and its shorthand [logger.info(msg)]. *)
Definition Logger_log (key : string) (lvl : Z) (msg : string) : M unit := λ s,
  if isEnabledFor s key lvl then
    if disabled (logger_at s key) then (Ok tt, s)
    else (Ok tt, callHandlers key (mkLogRecord key lvl msg (now s)) s)
  else (Ok tt, s).

Definition Logger_info (key : string) (msg : string) : M unit :=
  Logger_log key INFO msg.

(** *** Clock, home directory, process environment *)

Definition datetime_now : M datetime := gets now.
Definition Path_home : M path := gets home.

Definition environ_setitem (k v : string) : M unit :=
  modify (set_environ (λ e, <[k := v]> e)).

Fixpoint for_each {A} (xs : list A) (body : A → M unit) : M unit :=
  match xs with
  | [] => mret tt
  | x :: xs' => body x;; for_each xs' body
  end.

(** * [tardis_em/utils/logging_config.py] *)

Definition log_fmt : string := "%(asctime)s - %(name)s - %(levelname)s - %(message)s".
Definition log_datefmt : string := "%Y-%m-%d %H:%M:%S".

(** [setup_logger(name, level, log_file, console_output, file_output)].
    The Python defaults are [None], [logging.INFO], [None], [True], [True];
    here every argument is passed.  The value returned is the logger, given
    by the name it is registered under. *)
Definition setup_logger (name : option string) (lvl : Z) (log_file : option path)
    (console_output file_output : bool) : M string :=
  logger ← getLogger name;
  Logger_setLevel logger lvl;;
  Logger_set_propagate logger false;;
  Logger_handlers_clear logger;;
  let formatter := mkFormatter log_fmt log_datefmt in
  (if console_output then
     console_handler ← new_StreamHandler Stdout;
     Handler_setLevel console_handler lvl;;
     Handler_setFormatter console_handler formatter;;
     Logger_addHandler logger console_handler
   else mret tt);;
  (if file_output then
     log_file ← match log_file with
                | None =>
                    h ← Path_home;
                    let log_dir := h // ".tardis_em" // "logs" in
                    lift_fs (λ f, Path_mkdir f log_dir);;
                    t ← datetime_now;
                    let timestamp := strftime "%Y%m%d_%H%M%S" t in
                    mret (log_dir // ("tardis_" +:+ timestamp +:+ ".log"))
                | Some p => mret p
                end;
     file_handler ← new_FileHandler log_file;
     Handler_setLevel file_handler lvl;;
     Handler_setFormatter file_handler formatter;;
     Logger_addHandler logger file_handler
   else mret tt);;
  mret logger.

Definition get_logger (name : string) : M string :=
  getLogger (Some name).

Definition set_log_level (lvl : Z) : M unit :=
  lg ← getLogger (Some "tardis_em");
  Logger_setLevel lg lvl;;
  lg' ← getLogger (Some "tardis_em");
  hs ← gets (λ s, handlers (logger_at s lg'));
  for_each hs (λ handler, Handler_setLevel handler lvl).

Definition configure_tardis_logging (lvl : Z) (log_file : option path)
    (console_output file_output : bool) : M unit :=
  setup_logger (Some "tardis_em") lvl log_file console_output file_output;;
  logger ← getLogger (Some "tardis_em");
  Logger_info logger "TARDIS-em logging initialized".

(** * [tardis_em/__init__.py]

    The module body from its first statement after the imports; [__name__]
    is ["tardis_em"] there. *)
Definition tardis_em_init : M unit :=
  environ_setitem "PYTORCH_ENABLE_MPS_FALLBACK" "1";;
  configure_tardis_logging INFO None true true;;
  logger ← getLogger (Some "tardis_em");
  Logger_info logger "TARDIS initialized".

(** The list the module body builds last: one entry ["<in>_<out>"] for each
    input format and each output format, outer loop over the inputs. *)
Definition format_choices : list string :=
  prefix ← ["None"; "am"; "mrc"; "tif"; "npy"];
  suffix ← ["None"; "am"; "mrc"; "tif"; "npy"; "amSG"; "csv"; "stl"];
  [prefix +:+ "_" +:+ suffix].

(** * Observations and test states *)

(** The handlers hanging on a logger, read through the store. *)
Definition handlers_of (s : State) (key : string) : list (option Handler) :=
  (λ h, hstore s !! h) <$> handlers (logger_at s key).

Definition t0 : datetime := Datetime 2025 3 7 9 5 42.

Definition fs0 : gmap path node :=
  {[ [] := Dir true; ["home"] := Dir true; ["u"; "home"] := Dir true ]}.

Definition s0 : State :=
  mkState ∅ ∅ 0%nat 0 fs0 [] [] ∅ ["u"; "home"] t0.

(** * Vocabulary of the statements

    States a run of [setup_logger] goes through, predicates on the
    filesystem, and what the theorems observe. *)

Definition formatter0 : Formatter := mkFormatter log_fmt log_datefmt.

(** The state after the first four statements of [setup_logger]: level set,
    propagation off, handler list emptied. *)
Definition cleared (key : string) (lvl : Z) (s : State) : State :=
  mkState
    (<[key := mkLogger lvl false (disabled (logger_at s key)) []]> (loggerDict s))
    (hstore s) (next_href s) (manager_disable s)
    (fs s) (stdout s) (stderr s) (environ s) (home s) (now s).

(** The state after a handler was built, levelled, given the formatter and
    added to the logger. *)
Definition attached (key : string) (k : handler_kind) (lvl : Z) (s : State) : State :=
  let r := next_href s in
  let l := logger_at s key in
  mkState
    (<[key := mkLogger (level l) (propagate l) (disabled l)
                (if bool_decide (r ∈ handlers l) then handlers l else handlers l ++ [r])]>
       (loggerDict s))
    (<[r := mkHandler k lvl (Some formatter0)]> (hstore s))
    (S r) (manager_disable s) (fs s) (stdout s) (stderr s) (environ s) (home s) (now s).

(** The state when the console block of [setup_logger] is done. *)
Definition with_console (key : string) (lvl : Z) (console_output : bool) (s : State) : State :=
  if console_output then attached key (StreamHandler Stdout) lvl (cleared key lvl s)
  else cleared key lvl s.

Definition log_dir (s : State) : path := home s // ".tardis_em" // "logs".

Definition default_log_file (s : State) : path :=
  log_dir s // ("tardis_" +:+ strftime "%Y%m%d_%H%M%S" (now s) +:+ ".log").

Definition console_view (lvl : Z) (console_output : bool) : list (option Handler) :=
  if console_output
  then [Some (mkHandler (StreamHandler Stdout) lvl (Some formatter0))]
  else [].

Definition file_view (lvl : Z) (p : path) : list (option Handler) :=
  [Some (mkHandler (FileHandler p) lvl (Some formatter0))].

Definition log_target (log_file : option path) (s : State) : path :=
  match log_file with
  | Some p => p
  | None => default_log_file s
  end.

(** The filesystem work of the file block: [mkdir] for the default
    location only, then [open]. *)
Definition file_outcome (log_file : option path) (s : State) : Res (gmap path node) :=
  match log_file with
  | Some p => open_append (fs s) p
  | None =>
      match Path_mkdir (fs s) (log_dir s) with
      | Ok fs1 => open_append fs1 (default_log_file s)
      | Raise e => Raise e
      end
  end.

(** The state a run ends in: the console block done, the filesystem as
    given, and the file handler attached when there is one. *)
Definition outcome_state (key : string) (lvl : Z) (co : bool) (s : State)
    (fs' : gmap path node) (file : option path) : State :=
  let b := set_fs fs' (with_console key lvl co s) in
  match file with
  | Some p => attached key (FileHandler p) lvl b
  | None => b
  end.

Inductive setup_spec (name : option string) (lvl : Z) (lf : option path)
    (co fo : bool) (s : State) : Res string * State → Prop :=
  | setup_console_only :
      fo = false →
      setup_spec name lvl lf co fo s
        (Ok (resolve name), outcome_state (resolve name) lvl co s (fs s) None)
  | setup_file_ok fs2 :
      fo = true → file_outcome lf s = Ok fs2 →
      setup_spec name lvl lf co fo s
        (Ok (resolve name),
         outcome_state (resolve name) lvl co s fs2 (Some (log_target lf s)))
  | setup_open_failed e fs1 :
      fo = true → file_outcome lf s = Raise e →
      open_append fs1 (log_target lf s) = Raise e →
      match lf with
      | Some _ => fs1 = fs s
      | None => Path_mkdir (fs s) (log_dir s) = Ok fs1
      end →
      setup_spec name lvl lf co fo s
        (Raise e, outcome_state (resolve name) lvl co s fs1 None)
  | setup_mkdir_failed e :
      fo = true → lf = None → Path_mkdir (fs s) (log_dir s) = Raise e →
      setup_spec name lvl lf co fo s
        (Raise e, outcome_state (resolve name) lvl co s (fs s) None).

(** When [Path.mkdir(parents=True, exist_ok=True)] goes through: the path is
    a directory already, or nothing is there and the nearest existing
    ancestor is a writable directory. *)
Fixpoint can_mkdir (fs : gmap path node) (p : path) : bool :=
  match fs !! p with
  | Some (Dir _) => true
  | Some (File _ _) => false
  | None =>
      match p with
      | [] => false
      | _ :: parent =>
          match fs !! parent with
          | Some (Dir w) => w
          | Some (File _ _) => false
          | None => can_mkdir fs parent
          end
      end
  end.

(** A directory the process may create entries in, once it exists. *)
Definition dir_usable (fs : gmap path node) (p : path) : bool :=
  match fs !! p with
  | Some (Dir w) => w
  | Some (File _ _) => false
  | None => true
  end.

(** A path [open(p, 'a')] accepts inside a writable directory. *)
Definition appendable (fs : gmap path node) (p : path) : bool :=
  match fs !! p with
  | Some (File w _) => w
  | Some (Dir _) => false
  | None => true
  end.

Record mkdir_post (fs fs' : gmap path node) (p : path) : Prop := {
  mk_keeps : ∀ q n, fs !! q = Some n → fs' !! q = Some n;
  mk_dir : is_dir fs' p = true;
  mk_new : fs !! p = None → fs' !! p = Some (Dir true);
  mk_deeper : ∀ q, (length p < length q)%nat → fs' !! q = fs !! q;
  mk_parent : fs !! p = None → is_dir fs' (path_parent p) = true;
  mk_only_dirs : ∀ q, fs' !! q = fs !! q ∨ fs' !! q = Some (Dir true)
}.

(** A home directory in which [.tardis_em] is a regular file. *)
Definition s_blocked : State :=
  mkState ∅ ∅ 0%nat 0 (<[ [".tardis_em"; "u"; "home"] := File true [] ]> fs0)
          [] [] ∅ ["u"; "home"] t0.

Definition relevel (lvl : Z) (x : Handler) : Handler :=
  mkHandler (h_kind x) lvl (h_formatter x).

(** Two states that differ at most in what was written: the output streams
    and the filesystem. *)
Record same_but_output (s s' : State) : Prop := {
  so_loggers : loggerDict s' = loggerDict s;
  so_hstore : hstore s' = hstore s;
  so_next : next_href s' = next_href s;
  so_disable : manager_disable s' = manager_disable s;
  so_environ : environ s' = environ s;
  so_home : home s' = home s;
  so_now : now s' = now s
}.

(** The state once the line [l] went to standard output (console handler
    present) and to the log file (file handler present). *)
Definition written (co : bool) (file : option (list string))
    (l : option Formatter * LogRecord) (s1 : State) : State :=
  mkState (loggerDict s1) (hstore s1) (next_href s1) (manager_disable s1)
    (match file with Some p => write_file (fs s1) p l | None => fs s1 end)
    (stdout s1 ++ (if co then [l] else []))
    (stderr s1) (environ s1) (home s1) (now s1).

(** Whether an [INFO] record logged on ["tardis_em"] gets through, right
    after [setup_logger] gave that logger the level [lvl]: the logger is not
    disabled, [logging.disable] is below [INFO], and the effective level
    (the root's when [lvl] is [NOTSET]) is at most [INFO]. *)
Definition info_enabled (lvl : Z) (s : State) : bool :=
  negb (disabled (logger_at s "tardis_em"))
  && negb (Z.leb INFO (manager_disable s))
  && Z.leb (if Z.eqb lvl 0 then level (logger_at s "root") else lvl) INFO.

Record call : Type := mkCall {
  c_level : Z;
  c_log_file : option (list string);
  c_console : bool;
  c_file : bool
}.

Definition set_now (t : datetime) (s : State) : State :=
  mkState (loggerDict s) (hstore s) (next_href s) (manager_disable s)
          (fs s) (stdout s) (stderr s) (environ s) (home s) t.

(** One call made when the clock shows [t]; the state it leaves is kept
    whether it returned or raised (a caller that catches the exception goes
    on with the logger as it is). *)
Definition call_at (name : option string) (tc : datetime * call) (s : State) : State :=
  (setup_logger name (c_level tc.2) (c_log_file tc.2) (c_console tc.2) (c_file tc.2)
     (set_now tc.1 s)).2.

Definition run_calls (name : option string) (tcs : list (datetime * call))
    (s : State) : State :=
  foldl (λ s tc, call_at name tc s) s tcs.

(** The same world (filesystem, clock, home, environment, streams) with a
    [logging] library nobody has used yet. *)
Definition fresh_logging (s : State) : State :=
  mkState ∅ ∅ 0%nat (manager_disable s)
          (fs s) (stdout s) (stderr s) (environ s) (home s) (now s).


(** The filesystem and the file-handler target a run of [setup_logger] ends
    with, as functions of the arguments and the state before. *)
Definition outcome_fs_of (lf : option path) (fo : bool) (s : State) : gmap path node :=
  if fo then
    match lf with
    | Some p =>
        match open_append (fs s) p with Ok fs2 => fs2 | Raise _ => fs s end
    | None =>
        match Path_mkdir (fs s) (log_dir s) with
        | Ok fs1 =>
            match open_append fs1 (default_log_file s) with
            | Ok fs2 => fs2
            | Raise _ => fs1
            end
        | Raise _ => fs s
        end
    end
  else fs s.

Definition outcome_file_of (lf : option path) (fo : bool) (s : State) : option path :=
  if fo then
    match file_outcome lf s with
    | Ok _ => Some (log_target lf s)
    | Raise _ => None
    end
  else None.

(** A logger nobody configured: at [NOTSET], propagating, enabled, without
    handlers (what [getLogger] creates for a name other than the root's). *)
Definition unconfigured (s : State) (key : string) : Prop :=
  logger_at s key = mkLogger NOTSET true false [].

(** [key] names a proper dotted descendant of ["tardis_em"] (a module of the
    package) and neither it nor any logger between the two was configured. *)
Definition below_tardis_em (s : State) (key : string) : Prop :=
  ∃ mid, chain key = key :: mid ++ ["tardis_em"; "root"]
         ∧ Forall (λ a, a ≠ "tardis_em" ∧ unconfigured s a) (key :: mid).

(** A name component: a string without a dot. *)
Fixpoint no_dot (c : string) : bool :=
  match c with
  | EmptyString => true
  | String a c' => negb (Ascii.eqb a ".") && no_dot c'
  end.

(** Handler objects are private to their logger: every handler on a
    registered logger was allocated, and no handler is on two loggers. *)
Record handlers_private (s : State) : Prop := {
  hp_alloc : ∀ k l h,
    loggerDict s !! k = Some l → h ∈ handlers l → (h < next_href s)%nat;
  hp_unshared : ∀ k1 k2 l1 l2 h,
    loggerDict s !! k1 = Some l1 → loggerDict s !! k2 = Some l2 →
    h ∈ handlers l1 → h ∈ handlers l2 → k1 = k2
}.

(** A clock reading [strftime] renders with the widths the stamp has: a
    year of at most four digits and two-digit fields, as every [datetime]
    up to [datetime.MAXYEAR] is. *)
Definition clock_valid (t : datetime) : Prop :=
  (year t < 100 * 100 ∧ month t < 100 ∧ day t < 100
   ∧ hour t < 100 ∧ minute t < 100 ∧ second t < 100)%nat.

(** * The shape of a [setup_logger] run *)

Ltac unfold_m :=
  unfold getLogger, Logger_setLevel, Logger_set_propagate, Logger_handlers_clear,
    Logger_addHandler, new_StreamHandler, new_FileHandler, new_handler,
    Handler_setLevel, Handler_setFormatter, update_logger, update_handler,
    datetime_now, Path_home, environ_setitem, lift_fs, modify, gets, raise,
    mbind, M_bind, mret, M_ret.

Ltac unfold_s :=
  unfold set_loggerDict, set_hstore, set_next_href, set_fs, set_stdout,
    set_stderr, set_environ; cbn.

Lemma bind_run {A B} (m : M A) (f : A → M B) (s : State) :
  (m ≫= f) s =
  match m s with
  | (Ok a, s') => f a s'
  | (Raise e, s') => (Raise e, s')
  end.
Proof. reflexivity. Qed.

Lemma ret_bind_run {A B} (a : A) (f : A → M B) (s : State) :
  (mret a ≫= f) s = f a s.
Proof. reflexivity. Qed.

Lemma cleared_run {B} name lvl (K : string → M B) s :
  (logger ← getLogger name;
   Logger_setLevel logger lvl;;
   Logger_set_propagate logger false;;
   Logger_handlers_clear logger;;
   K logger) s = K (resolve name) (cleared (resolve name) lvl s).
Proof.
  destruct s. unfold_m. unfold cleared, logger_at. unfold_s.
  rewrite !lookup_insert_eq. cbn. rewrite !insert_insert_eq. reflexivity.
Qed.

Lemma attached_run key k lvl s :
  (h ← new_handler k;
   Handler_setLevel h lvl;;
   Handler_setFormatter h formatter0;;
   Logger_addHandler key h) s = (Ok tt, attached key k lvl s).
Proof.
  destruct s. unfold_m. unfold attached, logger_at. unfold_s.
  rewrite !alter_insert_eq. reflexivity.
Qed.

Lemma console_run key lvl (co : bool) s :
  (if co then
     console_handler ← new_StreamHandler Stdout;
     Handler_setLevel console_handler lvl;;
     Handler_setFormatter console_handler formatter0;;
     Logger_addHandler key console_handler
   else mret tt) (cleared key lvl s) = (Ok tt, with_console key lvl co s).
Proof.
  destruct co; [apply attached_run | reflexivity].
Qed.

(** [setup_logger] with the file output off. *)
Lemma setup_logger_no_file name lvl lf co s :
  setup_logger name lvl lf co false s
  = (Ok (resolve name), with_console (resolve name) lvl co s).
Proof.
  unfold setup_logger. rewrite cleared_run.
  rewrite bind_run. fold formatter0. rewrite console_run. reflexivity.
Qed.

Lemma file_run key p lvl (s : State) :
  (file_handler ← new_FileHandler p;
   Handler_setLevel file_handler lvl;;
   Handler_setFormatter file_handler formatter0;;
   Logger_addHandler key file_handler) s
  = match open_append (fs s) p with
    | Ok fs2 => (Ok tt, attached key (FileHandler p) lvl (set_fs fs2 s))
    | Raise e => (Raise e, s)
    end.
Proof.
  rewrite bind_run. unfold new_FileHandler. rewrite bind_run.
  unfold lift_fs. destruct (open_append (fs s) p) as [fs2|e]; [|reflexivity].
  rewrite <- (attached_run key (FileHandler p) lvl (set_fs fs2 s)).
  rewrite (bind_run (new_handler _)). reflexivity.
Qed.

(** [setup_logger] with an explicit log file. *)
Lemma setup_logger_explicit name lvl p co s :
  setup_logger name lvl (Some p) co true s
  = match open_append (fs s) p with
    | Ok fs2 =>
        (Ok (resolve name),
         attached (resolve name) (FileHandler p) lvl
           (set_fs fs2 (with_console (resolve name) lvl co s)))
    | Raise e => (Raise e, with_console (resolve name) lvl co s)
    end.
Proof.
  unfold setup_logger. rewrite cleared_run.
  rewrite bind_run. fold formatter0. rewrite console_run.
  rewrite bind_run.
  rewrite ret_bind_run.
  rewrite file_run.
  replace (fs (with_console (resolve name) lvl co s)) with (fs s)
    by (destruct co; reflexivity).
  destruct (open_append (fs s) p); reflexivity.
Qed.

(** [setup_logger] with the default log file. *)
Lemma setup_logger_default name lvl co s :
  setup_logger name lvl None co true s
  = match Path_mkdir (fs s) (log_dir s) with
    | Raise e => (Raise e, with_console (resolve name) lvl co s)
    | Ok fs1 =>
        match open_append fs1 (default_log_file s) with
        | Ok fs2 =>
            (Ok (resolve name),
             attached (resolve name) (FileHandler (default_log_file s)) lvl
               (set_fs fs2 (with_console (resolve name) lvl co s)))
        | Raise e => (Raise e, set_fs fs1 (with_console (resolve name) lvl co s))
        end
    end.
Proof.
  unfold setup_logger. rewrite cleared_run.
  rewrite bind_run. fold formatter0. rewrite console_run.
  set (s1 := with_console (resolve name) lvl co s).
  assert (Hfs : fs s1 = fs s) by (subst s1; destruct co; reflexivity).
  assert (Hhome : home s1 = home s) by (subst s1; destruct co; reflexivity).
  assert (Hnow : now s1 = now s) by (subst s1; destruct co; reflexivity).
  rewrite bind_run, bind_run, bind_run.
  unfold Path_home at 1, gets at 1.
  rewrite bind_run. unfold lift_fs at 1.
  rewrite Hfs, Hhome. fold (log_dir s).
  destruct (Path_mkdir (fs s) (log_dir s)) as [fs1|e]; [|reflexivity].
  rewrite bind_run. unfold datetime_now at 1, gets at 1.
  unfold mret at 1, M_ret at 1. cbv beta iota.
  change (now (set_fs fs1 s1)) with (now s1). rewrite Hnow.
  fold (default_log_file s). rewrite file_run.
  change (fs (set_fs fs1 s1)) with fs1.
  destruct (open_append fs1 (default_log_file s)); reflexivity.
Qed.

(** ** What the logger looks like afterwards *)

Lemma logger_at_with_console key lvl co s :
  logger_at (with_console key lvl co s) key
  = mkLogger lvl false (disabled (logger_at s key))
      (if co then [next_href s] else []).
Proof.
  destruct co; unfold with_console, attached, cleared, logger_at; cbn;
    rewrite !lookup_insert_eq; cbn; [|reflexivity].
  rewrite bool_decide_eq_false_2 by apply not_elem_of_nil. reflexivity.
Qed.

Lemma handlers_of_with_console key lvl co s :
  handlers_of (with_console key lvl co s) key = console_view lvl co.
Proof.
  unfold handlers_of. rewrite logger_at_with_console.
  destruct co; cbn; [|reflexivity].
  rewrite lookup_insert_eq. reflexivity.
Qed.

Lemma next_href_with_console key lvl (co : bool) s :
  next_href (with_console key lvl co s)
  = if co then S (next_href s) else next_href s.
Proof. destruct co; reflexivity. Qed.

Section file_attached.
Variables (key : string) (lvl : Z) (co : bool) (s : State).
Variables (p : list string) (fs2 : gmap (list string) node).

Lemma logger_at_base :
  logger_at (set_fs fs2 (with_console key lvl co s)) key
  = logger_at (with_console key lvl co s) key.
Proof. reflexivity. Qed.

Lemma logger_at_file_attached :
  logger_at (attached key (FileHandler p) lvl
               (set_fs fs2 (with_console key lvl co s))) key
  = mkLogger lvl false (disabled (logger_at s key))
      ((if co then [next_href s] else [])
       ++ [next_href (with_console key lvl co s)]).
Proof.
  unfold attached, logger_at at 1. cbn [loggerDict].
  rewrite lookup_insert_eq. cbn [default].
  rewrite logger_at_base, logger_at_with_console. cbn.
  rewrite bool_decide_eq_false_2; [reflexivity|].
  rewrite next_href_with_console.
  destruct co; [|apply not_elem_of_nil].
  rewrite list_elem_of_singleton. lia.
Qed.

Lemma handlers_of_file_attached :
  handlers_of (attached key (FileHandler p) lvl
                 (set_fs fs2 (with_console key lvl co s))) key
  = (console_view lvl co ++ file_view lvl p)%list.
Proof.
  unfold handlers_of. rewrite logger_at_file_attached. cbn [handlers].
  rewrite fmap_app. f_equal.
  - destruct co; cbn; [|reflexivity].
    rewrite lookup_insert_ne by lia. rewrite lookup_insert_eq. reflexivity.
  - unfold attached. cbn. rewrite lookup_insert_eq. reflexivity.
Qed.
End file_attached.

(** ** Every run of [setup_logger], classified *)

Lemma set_fs_same (s : State) : set_fs (fs s) s = s.
Proof. destruct s; reflexivity. Qed.

Lemma fs_with_console key lvl (co : bool) s : fs (with_console key lvl co s) = fs s.
Proof. destruct co; reflexivity. Qed.

Lemma outcome_state_same key lvl co s :
  outcome_state key lvl co s (fs s) None = with_console key lvl co s.
Proof.
  unfold outcome_state. rewrite <- (fs_with_console key lvl co s) at 1.
  apply set_fs_same.
Qed.

Lemma setup_logger_spec name lvl lf co fo s :
  setup_spec name lvl lf co fo s (setup_logger name lvl lf co fo s).
Proof.
  destruct fo.
  - destruct lf as [p|].
    + rewrite setup_logger_explicit.
      destruct (open_append (fs s) p) as [fs2|e] eqn:Hopen.
      * apply (setup_file_ok _ _ (Some p) _ _ _ fs2); [reflexivity|exact Hopen].
      * rewrite <- outcome_state_same.
        apply (setup_open_failed _ _ (Some p)); auto.
    + rewrite setup_logger_default.
      destruct (Path_mkdir (fs s) (log_dir s)) as [fs1|e] eqn:Hmk.
      * destruct (open_append fs1 (default_log_file s)) as [fs2|e] eqn:Hopen.
        -- apply (setup_file_ok _ _ None _ _ _ fs2); [reflexivity|].
           unfold file_outcome. rewrite Hmk. exact Hopen.
        -- apply (setup_open_failed _ _ None _ _ _ e fs1); auto.
           unfold file_outcome. rewrite Hmk. exact Hopen.
      * rewrite <- outcome_state_same. apply setup_mkdir_failed; auto.
  - rewrite setup_logger_no_file, <- outcome_state_same.
    apply setup_console_only. reflexivity.
Qed.

(** ** Properties of the final state, whatever the run was *)

Section outcome.
Variables (key : string) (lvl : Z) (co : bool) (s : State).
Variables (fs' : gmap (list string) node) (file : option (list string)).

Lemma outcome_handlers_of :
  handlers_of (outcome_state key lvl co s fs' file) key
  = (console_view lvl co ++ from_option (file_view lvl) [] file)%list.
Proof.
  unfold outcome_state. destruct file as [p|]; cbn [from_option].
  - apply handlers_of_file_attached.
  - rewrite app_nil_r. apply (handlers_of_with_console key lvl co s).
Qed.

Lemma outcome_logger :
  logger_at (outcome_state key lvl co s fs' file) key
  = mkLogger lvl false (disabled (logger_at s key))
      (handlers (logger_at (outcome_state key lvl co s fs' file) key)).
Proof.
  unfold outcome_state. destruct file as [p|].
  - rewrite logger_at_file_attached. reflexivity.
  - rewrite logger_at_base, logger_at_with_console. reflexivity.
Qed.

Lemma outcome_other_loggers key' :
  key' ≠ key →
  loggerDict (outcome_state key lvl co s fs' file) !! key' = loggerDict s !! key'.
Proof.
  intros Hne. unfold outcome_state.
  destruct file as [p|]; destruct co; cbn;
    rewrite ?lookup_insert_ne by congruence; reflexivity.
Qed.

Lemma outcome_fs : fs (outcome_state key lvl co s fs' file) = fs'.
Proof. unfold outcome_state. destruct file; reflexivity. Qed.

Lemma outcome_world :
  let s' := outcome_state key lvl co s fs' file in
  environ s' = environ s ∧ stdout s' = stdout s ∧ stderr s' = stderr s
  ∧ home s' = home s ∧ now s' = now s ∧ manager_disable s' = manager_disable s.
Proof.
  unfold outcome_state.
  destruct file; destruct co; cbn; repeat split; reflexivity.
Qed.
End outcome.

Lemma setup_logger_outcome name lvl lf co fo s :
  ∃ fs' file,
    (setup_logger name lvl lf co fo s).2
    = outcome_state (resolve name) lvl co s fs' file.
Proof.
  destruct (setup_logger_spec name lvl lf co fo s); eauto.
Qed.

Lemma chain_handlers_own s key :
  propagate (logger_at s key) = false →
  chain_handlers s (chain key) = handlers (logger_at s key).
Proof.
  intros Hp. unfold chain.
  destruct (String.eqb key root_name); cbn; rewrite Hp; apply app_nil_r.
Qed.

(** * Theorems *)

(** C2: for every name, level and [log_file], [setup_logger] called with
    [console_output=False] and [file_output=False] returns normally, and the
    logger it returns has an empty handler list. *)
Theorem setup_logger_no_outputs name lvl log_file s :
  ∃ s', setup_logger name lvl log_file false false s = (Ok (resolve name), s')
        ∧ handlers (logger_at s' (resolve name)) = []
        ∧ handlers_of s' (resolve name) = [].
Proof.
  rewrite setup_logger_no_file. eexists. split; [reflexivity|].
  split.
  - rewrite logger_at_with_console. reflexivity.
  - apply (handlers_of_with_console (resolve name) lvl false s).
Qed.

(** C8: whatever the arguments, and whether the call returns or raises, the
    logger [setup_logger] configured has [propagate] false; the logger
    returned is that one, and a record logged through it is offered to its
    own handlers only, never to those of an ancestor or of the root. *)
Theorem setup_logger_propagate_off name lvl log_file console_output file_output s :
  let rs := setup_logger name lvl log_file console_output file_output s in
  match rs.1 with Ok k => k = resolve name | Raise _ => True end
  ∧ propagate (logger_at rs.2 (resolve name)) = false
  ∧ chain_handlers rs.2 (chain (resolve name))
    = handlers (logger_at rs.2 (resolve name)).
Proof.
  intros rs.
  assert (Hp : propagate (logger_at rs.2 (resolve name)) = false).
  { subst rs.
    destruct (setup_logger_outcome name lvl log_file console_output file_output s)
      as (fs' & file & ->).
    rewrite outcome_logger. reflexivity. }
  split; [|split].
  - subst rs.
    destruct (setup_logger_spec name lvl log_file console_output file_output s);
      cbn; auto.
  - exact Hp.
  - apply chain_handlers_own, Hp.
Qed.

(** C5: with [console_output] true the first handler on the logger is a
    stream handler on standard output (not standard error), and every
    handler [setup_logger] leaves on the logger, console or file, carries
    the formatter with the fixed format and date format. *)
Theorem setup_logger_stdout_and_format name lvl log_file console_output file_output s :
  let f := mkFormatter "%(asctime)s - %(name)s - %(levelname)s - %(message)s"
                       "%Y-%m-%d %H:%M:%S" in
  handlers_of (setup_logger name lvl log_file true file_output s).2 (resolve name)
    !! 0%nat
  = Some (Some (mkHandler (StreamHandler Stdout) lvl (Some f)))
  ∧ Forall (λ oh, ∃ h, oh = Some h ∧ h_formatter h = Some f)
      (handlers_of
         (setup_logger name lvl log_file console_output file_output s).2
         (resolve name)).
Proof.
  intros f. split.
  - destruct (setup_logger_outcome name lvl log_file true file_output s)
      as (fs' & file & ->).
    rewrite outcome_handlers_of. reflexivity.
  - destruct (setup_logger_outcome name lvl log_file console_output file_output s)
      as (fs' & file & ->).
    rewrite outcome_handlers_of. apply Forall_app. split.
    + destruct console_output; cbn; [|constructor].
      constructor; [|constructor]. eexists. split; reflexivity.
    + destruct file; cbn; [|constructor].
      constructor; [|constructor]. eexists. split; reflexivity.
Qed.

(** ** Filesystem lemmas *)

Lemma is_dir_Some fs p w : fs !! p = Some (Dir w) → is_dir fs p = true.
Proof. unfold is_dir. intros ->. reflexivity. Qed.

Lemma mkdir_post_refl fs p w : fs !! p = Some (Dir w) → mkdir_post fs fs p.
Proof.
  intros H. split; auto; try congruence.
  eapply is_dir_Some, H.
Qed.

Lemma mkdir_post_insert fs p c w :
  fs !! (c :: p) = None → fs !! p = Some (Dir w) →
  mkdir_post fs (<[c :: p := Dir true]> fs) (c :: p).
Proof.
  intros Hnone Hpar. split.
  - intros q n Hq. rewrite lookup_insert_ne; [exact Hq|].
    intros <-. congruence.
  - unfold is_dir. rewrite lookup_insert_eq. reflexivity.
  - intros _. apply lookup_insert_eq.
  - intros q Hlen. apply lookup_insert_ne. intros <-. lia.
  - intros _. cbn. unfold is_dir. rewrite lookup_insert_ne.
    + rewrite Hpar. reflexivity.
    + intros E. apply (f_equal length) in E. cbn in E. lia.
  - intros q. destruct (decide (c :: p = q)) as [<-|Hne].
    + right. apply lookup_insert_eq.
    + left. apply lookup_insert_ne, Hne.
Qed.

Lemma Path_mkdir_ok fs p :
  can_mkdir fs p = true → ∃ fs', Path_mkdir fs p = Ok fs' ∧ mkdir_post fs fs' p.
Proof.
  induction p as [|c parent IH]; cbn [can_mkdir Path_mkdir]; unfold os_mkdir.
  - destruct (fs !! []) as [[w|w x]|] eqn:Hp; try discriminate. intros _.
    cbn. rewrite (is_dir_Some _ _ _ Hp). eauto using mkdir_post_refl.
  - destruct (fs !! (c :: parent)) as [[w|w x]|] eqn:Hp; try discriminate.
    + intros _. cbn. rewrite (is_dir_Some _ _ _ Hp). eauto using mkdir_post_refl.
    + destruct (fs !! parent) as [[w|w x]|] eqn:Hpar; try discriminate.
      * intros ->. eauto using mkdir_post_insert.
      * intros Hcan. destruct (IH Hcan) as (fs1 & -> & Hpost).
        assert (Hp1 : fs1 !! (c :: parent) = None).
        { rewrite (mk_deeper _ _ _ Hpost) by (cbn; lia). exact Hp. }
        unfold mkdir_exist_ok, os_mkdir.
        rewrite Hp1, (mk_new _ _ _ Hpost Hpar).
        eexists. split; [reflexivity|].
        pose proof (mkdir_post_insert fs1 parent c true Hp1
                      (mk_new _ _ _ Hpost Hpar)) as Hins.
        split.
        -- intros q n Hq. apply (mk_keeps _ _ _ Hins), (mk_keeps _ _ _ Hpost), Hq.
        -- apply (mk_dir _ _ _ Hins).
        -- intros _. apply lookup_insert_eq.
        -- intros q Hlen. rewrite (mk_deeper _ _ _ Hins) by exact Hlen.
           apply (mk_deeper _ _ _ Hpost). cbn in Hlen. lia.
        -- intros _. apply (mk_parent _ _ _ Hins Hp1).
        -- intros q. destruct (mk_only_dirs _ _ _ Hins q) as [-> | ->]; [|auto].
           apply (mk_only_dirs _ _ _ Hpost).
Qed.

Lemma open_append_in_made_dir fs fs1 dir c :
  mkdir_post fs fs1 dir →
  dir_usable fs dir = true → appendable fs (c :: dir) = true →
  ∃ fs2, open_append fs1 (c :: dir) = Ok fs2
         ∧ (∀ q n, fs1 !! q = Some n → fs2 !! q = Some n)
         ∧ (∃ w x, fs2 !! (c :: dir) = Some (File w x)).
Proof.
  intros Hpost Hdir Happ. unfold open_append, appendable, dir_usable in *.
  rewrite (mk_deeper _ _ _ Hpost) by (cbn; lia).
  destruct (fs !! (c :: dir)) as [[w|w x]|] eqn:Hf; try discriminate.
  - subst w. exists fs1. split; [reflexivity|]. split; [auto|].
    exists true, x. apply (mk_keeps _ _ _ Hpost), Hf.
  - cbn [path_parent tail].
    assert (Hd : fs1 !! dir = Some (Dir true)).
    { destruct (fs !! dir) as [[w|w x]|] eqn:Hd; try discriminate.
      - subst w. apply (mk_keeps _ _ _ Hpost), Hd.
      - apply (mk_new _ _ _ Hpost Hd). }
    rewrite Hd. eexists. split; [reflexivity|]. split.
    + intros q n Hq. rewrite lookup_insert_ne; [exact Hq|].
      intros <-. rewrite (mk_deeper _ _ _ Hpost) in Hq by (cbn; lia). congruence.
    + exists true, []. apply lookup_insert_eq.
Qed.

(** C3: [setup_logger] called with [file_output=True] and no [log_file],
    on a filesystem where the log directory can be made or is there already
    and the log file can be opened: the call returns; [<home>/.tardis_em/logs]
    is a directory afterwards, made together with its parent when it was
    missing and left as it was when it existed, nothing that existed is
    changed; and the last handler on the logger is a file handler on the
    file [tardis_<YYYYMMDD_HHMMSS>.log] of that directory, the stamp being
    the current time in zero-padded decimal. *)
Theorem setup_logger_default_log_file name lvl console_output s :
  let t := now s in
  let dir := home s // ".tardis_em" // "logs" in
  let file :=
    dir // ("tardis_" +:+ pad4 (year t) +:+ pad2 (month t) +:+ pad2 (day t)
            +:+ "_" +:+ pad2 (hour t) +:+ pad2 (minute t) +:+ pad2 (second t)
            +:+ ".log") in
  can_mkdir (fs s) dir = true →
  dir_usable (fs s) dir = true →
  appendable (fs s) file = true →
  ∃ s', setup_logger name lvl None console_output true s = (Ok (resolve name), s')
    ∧ is_dir (fs s') dir = true
    ∧ (is_dir (fs s) dir = true ∨ is_dir (fs s') (home s // ".tardis_em") = true)
    ∧ (∀ q n, fs s !! q = Some n → fs s' !! q = Some n)
    ∧ (∃ w x, fs s' !! file = Some (File w x))
    ∧ last (handlers_of s' (resolve name))
      = Some (Some (mkHandler (FileHandler file) lvl
                      (Some (mkFormatter log_fmt log_datefmt)))).
Proof.
  intros t dir file Hmk Hdir Happ.
  assert (Hfile : default_log_file s = file) by reflexivity.
  change dir with (log_dir s) in *.
  destruct (Path_mkdir_ok _ _ Hmk) as (fs1 & Hmkdir & Hpost).
  destruct (open_append_in_made_dir _ _ _ _ Hpost Hdir Happ)
    as (fs2 & Hopen & Hkeep & Hex).
  change (open_append fs1 (default_log_file s) = Ok fs2) in Hopen.
  rewrite setup_logger_default, Hmkdir, Hopen, Hfile.
  eexists. split; [reflexivity|].
  set (s' := attached _ _ _ _).
  assert (Hfs : fs s' = fs2) by reflexivity. rewrite Hfs.
  assert (Hd1 : is_dir fs1 (log_dir s) = true) by apply (mk_dir _ _ _ Hpost).
  assert (Hup : ∀ q, is_dir fs1 q = true → is_dir fs2 q = true).
  { intros q. unfold is_dir.
    destruct (fs1 !! q) as [[w|w x]|] eqn:Hq; try discriminate.
    rewrite (Hkeep _ _ Hq). reflexivity. }
  repeat split.
  - apply Hup, Hd1.
  - destruct (fs s !! log_dir s) as [[w|w x]|] eqn:Hd.
    + left. eapply is_dir_Some, Hd.
    + unfold is_dir in Hd1. pose proof (mk_keeps _ _ _ Hpost _ _ Hd) as E.
      rewrite E in Hd1. discriminate.
    + right. apply Hup. apply (mk_parent _ _ _ Hpost Hd).
  - intros q n Hq. apply Hkeep, (mk_keeps _ _ _ Hpost), Hq.
  - exact Hex.
  - subst s'.
    rewrite (handlers_of_file_attached (resolve name) lvl console_output s file fs2).
    apply last_snoc.
Qed.

Lemma setup_logger_default_log_file_witness :
  ∃ s', setup_logger (Some "tardis_em") 20 None true true s0 = (Ok "tardis_em", s')
    ∧ is_dir (fs s') ["logs"; ".tardis_em"; "u"; "home"] = true
    ∧ last (handlers_of s' "tardis_em")
      = Some (Some (mkHandler
                      (FileHandler ["tardis_20250307_090542.log"; "logs";
                                    ".tardis_em"; "u"; "home"])
                      20 (Some (mkFormatter log_fmt log_datefmt)))).
Proof.
  destruct (setup_logger_default_log_file (Some "tardis_em") 20 true s0)
    as (s' & Hrun & Hdir & _ & _ & _ & Hlast);
    [vm_compute; reflexivity..|].
  exists s'. split; [exact Hrun|]. split; [exact Hdir|exact Hlast].
Defined.

(** ** Failures *)

Lemma setup_logger_result name lvl lf co fo s :
  (setup_logger name lvl lf co fo s).1
  = if fo then
      match file_outcome lf s with
      | Ok _ => Ok (resolve name)
      | Raise e => Raise e
      end
    else Ok (resolve name).
Proof.
  destruct (setup_logger_spec name lvl lf co fo s) as [->|fs2 -> H|e fs1 -> H _ _|e -> -> H];
    cbn [fst]; try reflexivity; try (rewrite H; reflexivity).
  unfold file_outcome. rewrite H. reflexivity.
Qed.

Lemma setup_logger_raise_state name lvl lf co fo s e :
  (setup_logger name lvl lf co fo s).1 = Raise e →
  ∃ fs', (setup_logger name lvl lf co fo s).2
         = outcome_state (resolve name) lvl co s fs' None.
Proof.
  destruct (setup_logger_spec name lvl lf co fo s); cbn [fst snd];
    try discriminate; eauto.
Qed.

Lemma file_outcome_raise lf s e :
  file_outcome lf s = Raise e
  ↔ match lf with
    | Some p => open_append (fs s) p = Raise e
    | None =>
        Path_mkdir (fs s) (log_dir s) = Raise e
        ∨ ∃ fs1, Path_mkdir (fs s) (log_dir s) = Ok fs1
                 ∧ open_append fs1 (default_log_file s) = Raise e
    end.
Proof.
  unfold file_outcome. destruct lf as [p|]; [reflexivity|].
  destruct (Path_mkdir (fs s) (log_dir s)) as [fs1|e1]; split.
  - intros H. right. eauto.
  - intros [H|(fs1' & H1 & H2)]; [discriminate|]. congruence.
  - intros H. left. exact H.
  - intros [H|(fs1' & H1 & H2)]; [exact H|discriminate].
Qed.

(** C4: [setup_logger] raises exactly when its filesystem work fails, and
    then with that very exception: the one [mkdir] raised for the default
    directory, or the one the file handler's [open] raised.  The logger is
    then left half configured: level set, propagation off, the old handlers
    gone, the console handler on it when it was asked for, and no file
    handler. *)
Theorem setup_logger_fs_errors_propagate
    name lvl log_file console_output file_output s e :
  let rs := setup_logger name lvl log_file console_output file_output s in
  let dir := home s // ".tardis_em" // "logs" in
  (rs.1 = Raise e
   ↔ file_output = true
     ∧ match log_file with
       | Some p => open_append (fs s) p = Raise e
       | None =>
           Path_mkdir (fs s) dir = Raise e
           ∨ ∃ fs1, Path_mkdir (fs s) dir = Ok fs1
                    ∧ open_append fs1 (default_log_file s) = Raise e
       end)
  ∧ (rs.1 = Raise e →
     level (logger_at rs.2 (resolve name)) = lvl
     ∧ propagate (logger_at rs.2 (resolve name)) = false
     ∧ handlers_of rs.2 (resolve name)
       = if console_output
         then [Some (mkHandler (StreamHandler Stdout) lvl
                       (Some (mkFormatter log_fmt log_datefmt)))]
         else []).
Proof.
  intros rs dir. split.
  - subst rs. rewrite setup_logger_result.
    change dir with (log_dir s). rewrite <- file_outcome_raise.
    destruct file_output.
    + destruct (file_outcome log_file s); split.
      * discriminate.
      * intros [_ H]. discriminate.
      * intros [= ->]. auto.
      * intros [_ [= ->]]. reflexivity.
    + split; [discriminate|]. intros [H _]. discriminate.
  - intros Hraise. subst rs.
    destruct (setup_logger_raise_state _ _ _ _ _ _ _ Hraise) as (fs' & ->).
    rewrite outcome_logger, outcome_handlers_of. cbn.
    rewrite app_nil_r. auto.
Qed.

Lemma setup_logger_fs_errors_propagate_witness :
  (setup_logger (Some "tardis_em") 20 None true true s_blocked).1
  = Raise (OSError NotADirectoryError ["logs"; ".tardis_em"; "u"; "home"])
  ∧ handlers_of (setup_logger (Some "tardis_em") 20 None true true s_blocked).2
      "tardis_em"
    = [Some (mkHandler (StreamHandler Stdout) 20
               (Some (mkFormatter log_fmt log_datefmt)))].
Proof.
  pose proof (setup_logger_fs_errors_propagate (Some "tardis_em") 20 None true true
                s_blocked
                (OSError NotADirectoryError ["logs"; ".tardis_em"; "u"; "home"]))
    as [Hiff Hstate].
  assert (Hraise :
    (setup_logger (Some "tardis_em") 20 None true true s_blocked).1
    = Raise (OSError NotADirectoryError ["logs"; ".tardis_em"; "u"; "home"])).
  { apply Hiff. split; [reflexivity|]. left. vm_compute. reflexivity. }
  split; [exact Hraise|].
  destruct (Hstate Hraise) as (_ & _ & Hh). exact Hh.
Defined.

Lemma open_append_Ok fs p fs2 :
  open_append fs p = Ok fs2 →
  (fs2 = fs ∧ ∃ x, fs !! p = Some (File true x))
  ∨ (fs !! p = None ∧ fs !! path_parent p = Some (Dir true)
     ∧ fs2 = <[p := File true []]> fs).
Proof.
  unfold open_append.
  destruct (fs !! p) as [[w|[] x]|] eqn:Hp; try discriminate.
  - intros [= <-]. left. eauto.
  - destruct (fs !! path_parent p) as [[[]|w x]|]; try discriminate.
    intros [= <-]. right. auto.
Qed.

(** C9: with an explicit [log_file] and [file_output=True], [setup_logger]
    makes no directory: the set of directories is the same before and after,
    every path other than the log file keeps its node, the log file is
    either untouched or newly made empty; and when the log file does not
    exist and its parent is not a directory, the call raises and the
    filesystem is as it was. *)
Theorem setup_logger_explicit_no_mkdir name lvl p console_output s :
  let rs := setup_logger name lvl (Some p) console_output true s in
  (∀ q, q ≠ p → fs rs.2 !! q = fs s !! q)
  ∧ (∀ q, is_dir (fs rs.2) q = is_dir (fs s) q)
  ∧ (fs rs.2 !! p = fs s !! p
     ∨ (fs s !! p = None ∧ fs rs.2 !! p = Some (File true [])))
  ∧ (fs s !! p = None → is_dir (fs s) (path_parent p) = false →
     ∃ e, rs.1 = Raise e ∧ fs rs.2 = fs s).
Proof.
  intros rs. subst rs. rewrite setup_logger_explicit.
  destruct (open_append (fs s) p) as [fs2|e] eqn:Hopen; cbn [fst snd].
  - assert (Hfs : ∀ k, fs (attached (resolve name) k lvl
                             (set_fs fs2 (with_console (resolve name) lvl console_output s)))
                       = fs2) by reflexivity.
    rewrite Hfs.
    destruct (open_append_Ok _ _ _ Hopen) as [[-> [x Hx]]|(Hnone & Hpar & ->)].
    + repeat split; auto. intros Hp. congruence.
    + repeat split.
      * intros q Hq. apply lookup_insert_ne. congruence.
      * intros q. unfold is_dir. destruct (decide (p = q)) as [<-|Hne].
        -- rewrite lookup_insert_eq, Hnone. reflexivity.
        -- rewrite lookup_insert_ne by exact Hne. reflexivity.
      * right. split; [exact Hnone|apply lookup_insert_eq].
      * intros _ Hd. unfold is_dir in Hd. rewrite Hpar in Hd. discriminate.
  - rewrite fs_with_console. repeat split; auto. eauto.
Qed.

Lemma setup_logger_explicit_no_mkdir_witness :
  ∃ e, (setup_logger (Some "tardis_em") 20 (Some ["run.log"; "out"; "u"; "home"])
          true true s0).1 = Raise e
       ∧ fs (setup_logger (Some "tardis_em") 20 (Some ["run.log"; "out"; "u"; "home"])
               true true s0).2 = fs s0.
Proof.
  destruct (setup_logger_explicit_no_mkdir (Some "tardis_em") 20
              ["run.log"; "out"; "u"; "home"] true s0) as (_ & _ & _ & H).
  apply H; vm_compute; reflexivity.
Defined.

(** ** [set_log_level] *)

Lemma for_each_setLevel hs lvl s :
  for_each hs (λ handler, Handler_setLevel handler lvl) s
  = (Ok tt, set_hstore (λ m, foldl (λ m h, alter (relevel lvl) h m) m hs) s).
Proof.
  revert s. induction hs as [|h hs IH]; intros s.
  - destruct s; reflexivity.
  - cbn [for_each]. rewrite bind_run.
    unfold Handler_setLevel at 1, update_handler, modify.
    rewrite IH. destruct s; reflexivity.
Qed.

Lemma lookup_foldl_relevel lvl hs (m : gmap nat Handler) r :
  foldl (λ m h, alter (relevel lvl) h m) m hs !! r
  = if bool_decide (r ∈ hs) then relevel lvl <$> m !! r else m !! r.
Proof.
  revert m. induction hs as [|h hs IH]; intros m; [reflexivity|].
  cbn [foldl]. rewrite IH.
  destruct (decide (h = r)) as [->|Hne].
  - rewrite lookup_alter_eq.
    rewrite (bool_decide_eq_true_2 (r ∈ r :: hs)) by apply list_elem_of_here.
    destruct (bool_decide (r ∈ hs)); [|reflexivity].
    destruct (m !! r); reflexivity.
  - rewrite lookup_alter_ne by exact Hne.
    destruct (bool_decide (r ∈ hs)) eqn:Hin.
    + apply bool_decide_eq_true_1 in Hin.
      rewrite bool_decide_eq_true_2; [reflexivity|].
      apply list_elem_of_further, Hin.
    + apply bool_decide_eq_false_1 in Hin.
      rewrite bool_decide_eq_false_2; [reflexivity|].
      intros [E|E]%elem_of_cons; [congruence|contradiction].
Qed.

Lemma set_log_level_run lvl s :
  let l := logger_at s "tardis_em" in
  set_log_level lvl s
  = (Ok tt,
     mkState
       (<["tardis_em" := mkLogger lvl (propagate l) (disabled l) (handlers l)]>
          (loggerDict s))
       (foldl (λ m h, alter (relevel lvl) h m) (hstore s) (handlers l))
       (next_href s) (manager_disable s) (fs s) (stdout s) (stderr s)
       (environ s) (home s) (now s)).
Proof.
  intros l. subst l. unfold set_log_level. destruct s.
  unfold getLogger, Logger_setLevel, update_logger, modify, gets,
    mbind, M_bind, mret, M_ret.
  unfold logger_at, set_loggerDict. cbn [loggerDict default].
  rewrite !lookup_insert_eq. cbn [default handlers level propagate disabled].
  rewrite for_each_setLevel. unfold set_hstore. cbn.
  rewrite !insert_insert_eq. reflexivity.
Qed.

(** C10: [set_log_level] always returns; it changes the level of the logger
    named ["tardis_em"], keeping its other attributes and its very handler
    list, and the level of each handler on that list, keeping the handler's
    kind and formatter; every other registry entry, every other handler, the
    allocation counter, the filesystem, the output streams and the
    environment are as before. *)
Theorem set_log_level_frame lvl s :
  let l := logger_at s "tardis_em" in
  ∃ s', set_log_level lvl s = (Ok tt, s')
    ∧ logger_at s' "tardis_em"
      = mkLogger lvl (propagate l) (disabled l) (handlers l)
    ∧ (∀ k, k ≠ "tardis_em" → loggerDict s' !! k = loggerDict s !! k)
    ∧ (∀ h, hstore s' !! h
            = if bool_decide (h ∈ handlers l)
              then (λ x, mkHandler (h_kind x) lvl (h_formatter x)) <$> hstore s !! h
              else hstore s !! h)
    ∧ next_href s' = next_href s ∧ manager_disable s' = manager_disable s
    ∧ fs s' = fs s ∧ stdout s' = stdout s ∧ stderr s' = stderr s
    ∧ environ s' = environ s.
Proof.
  intros l. rewrite set_log_level_run. fold l.
  eexists. split; [reflexivity|]. cbn.
  split; [|split; [|split]].
  - unfold logger_at. cbn. rewrite lookup_insert_eq. reflexivity.
  - intros k Hk. apply lookup_insert_ne. congruence.
  - intros h. apply lookup_foldl_relevel.
  - repeat split.
Qed.

(** ** Logging a record: what it may touch *)

Lemma same_but_output_refl s : same_but_output s s.
Proof. split; reflexivity. Qed.

Lemma same_but_output_trans s1 s2 s3 :
  same_but_output s1 s2 → same_but_output s2 s3 → same_but_output s1 s3.
Proof. intros [] []. split; congruence. Qed.

Lemma emit_same k l s : same_but_output s (emit k l s).
Proof. destruct k as [[]|p]; split; reflexivity. Qed.

Lemma handle_one_same r s h : same_but_output s (handle_one r s h).
Proof.
  unfold handle_one. destruct (hstore s !! h) as [x|];
    [|apply same_but_output_refl].
  destruct (Z.leb (h_level x) (r_levelno r));
    [apply emit_same|apply same_but_output_refl].
Qed.

Lemma foldl_handle_one_same r hs s :
  same_but_output s (foldl (handle_one r) s hs).
Proof.
  revert s. induction hs as [|h hs IH]; intros s; cbn [foldl].
  - apply same_but_output_refl.
  - eapply same_but_output_trans; [apply handle_one_same|apply IH].
Qed.

Lemma callHandlers_same key r s : same_but_output s (callHandlers key r s).
Proof.
  unfold callHandlers. destruct (chain_handlers s (chain key)) as [|h hs].
  - destruct (Z.leb WARNING (r_levelno r));
      [apply emit_same|apply same_but_output_refl].
  - apply foldl_handle_one_same.
Qed.

Lemma Logger_log_same key lvl msg s :
  ∃ s', Logger_log key lvl msg s = (Ok tt, s') ∧ same_but_output s s'.
Proof.
  unfold Logger_log. destruct (isEnabledFor s key lvl).
  - destruct (disabled (logger_at s key)); eexists; split; try reflexivity.
    + apply same_but_output_refl.
    + apply callHandlers_same.
  - eexists. split; [reflexivity|apply same_but_output_refl].
Qed.

(** [getLogger] on a name the registry holds changes nothing. *)
Lemma getLogger_registered {B} name (K : string → M B) s l :
  loggerDict s !! resolve name = Some l →
  (getLogger name ≫= K) s = K (resolve name) s.
Proof.
  intros Hl. unfold getLogger, modify, mbind, M_bind, mret, M_ret.
  cbv beta iota. f_equal.
  destruct s. unfold set_loggerDict, logger_at in *. cbn in *.
  rewrite Hl. cbn. rewrite insert_id by exact Hl. reflexivity.
Qed.

Lemma outcome_registered key lvl co s fs' file :
  is_Some (loggerDict (outcome_state key lvl co s fs' file) !! key).
Proof.
  unfold outcome_state. destruct file; destruct co; cbn;
    rewrite lookup_insert_eq; eauto.
Qed.

(** ** A record logged right after [setup_logger] *)

Lemma outcome_handlers key lvl co s fs' file :
  handlers (logger_at (outcome_state key lvl co s fs' file) key)
  = ((if co then [next_href s] else [])
     ++ match file with
        | Some _ => [if co then S (next_href s) else next_href s]
        | None => []
        end)%list.
Proof.
  unfold outcome_state. destruct file as [p|].
  - rewrite logger_at_file_attached. cbn [handlers set_fs next_href].
    rewrite next_href_with_console. reflexivity.
  - rewrite logger_at_base, logger_at_with_console, app_nil_r. reflexivity.
Qed.

Lemma handle_one_emit r s h x :
  hstore s !! h = Some x → Z.leb (h_level x) (r_levelno r) = true →
  handle_one r s h = emit (h_kind x) (h_formatter x, r) s.
Proof. unfold handle_one. intros -> ->. reflexivity. Qed.

Lemma written_cases l s1 p :
  s1 = written false None l s1
  ∧ emit (StreamHandler Stdout) l s1 = written true None l s1
  ∧ emit (FileHandler p) l s1 = written false (Some p) l s1
  ∧ emit (FileHandler p) l (emit (StreamHandler Stdout) l s1)
    = written true (Some p) l s1.
Proof.
  destruct s1. unfold written, emit, set_fs, set_stdout. cbn.
  rewrite app_nil_r. repeat split.
Qed.

Lemma callHandlers_outcome key lvl co s fs' file msg t :
  (lvl ≤ INFO)%Z →
  let s1 := outcome_state key lvl co s fs' file in
  callHandlers key (mkLogRecord key INFO msg t) s1
  = written co file (Some formatter0, mkLogRecord key INFO msg t) s1.
Proof.
  intros Hlvl s1. unfold callHandlers.
  rewrite chain_handlers_own by (subst s1; rewrite outcome_logger; reflexivity).
  pose proof (outcome_handlers_of key lvl co s fs' file) as Hv.
  unfold handlers_of in Hv. fold s1 in Hv.
  subst s1. rewrite outcome_handlers in Hv |- *.
  set (s1 := outcome_state key lvl co s fs' file) in *. clearbody s1.
  set (r := mkLogRecord key INFO msg t).
  apply Z.leb_le in Hlvl.
  destruct co, file as [p|]; cbn in Hv |- *.
  - injection Hv as Hc Hf.
    rewrite (handle_one_emit r s1 _ _ Hc Hlvl). cbn [h_kind h_formatter].
    rewrite (handle_one_emit r (emit (StreamHandler Stdout) (Some formatter0, r) s1)
               _ _ Hf Hlvl).
    apply (written_cases (Some formatter0, r) s1 p).
  - injection Hv as Hc.
    rewrite (handle_one_emit r s1 _ _ Hc Hlvl).
    apply (written_cases (Some formatter0, r) s1 []).
  - injection Hv as Hf.
    rewrite (handle_one_emit r s1 _ _ Hf Hlvl).
    apply (written_cases (Some formatter0, r) s1 p).
  - apply (written_cases (Some formatter0, r) s1 []).
Qed.

Lemma info_enabled_level lvl s : info_enabled lvl s = true → (lvl ≤ INFO)%Z.
Proof.
  unfold info_enabled. intros [_ H]%andb_true_iff.
  destruct (Z.eqb_spec lvl 0) as [->|_]; [unfold INFO; lia|].
  apply Z.leb_le, H.
Qed.

Lemma isEnabledFor_outcome lvl co s fs' file :
  isEnabledFor (outcome_state "tardis_em" lvl co s fs' file) "tardis_em" INFO
  = info_enabled lvl s.
Proof.
  unfold isEnabledFor, info_enabled, getEffectiveLevel.
  change (chain "tardis_em") with ["tardis_em"; "root"].
  cbn [effective_level]. rewrite outcome_logger. cbn [disabled level].
  assert (Hroot : logger_at (outcome_state "tardis_em" lvl co s fs' file) "root"
                  = logger_at s "root").
  { unfold logger_at. rewrite outcome_other_loggers; [reflexivity|discriminate]. }
  rewrite Hroot.
  destruct (outcome_world "tardis_em" lvl co s fs' file) as (_ & _ & _ & _ & _ & ->).
  destruct (disabled (logger_at s "tardis_em")); [reflexivity|].
  destruct (Z.leb INFO (manager_disable s)); [reflexivity|]. cbn [negb andb].
  destruct (Z.eqb_spec lvl 0) as [->|Hne]; [|reflexivity].
  destruct (Z.eqb_spec (level (logger_at s "root")) 0) as [->|_]; reflexivity.
Qed.

Lemma Logger_info_outcome lvl co s fs' file msg :
  let s1 := outcome_state "tardis_em" lvl co s fs' file in
  Logger_info "tardis_em" msg s1
  = (Ok tt,
     if info_enabled lvl s
     then written co file (Some formatter0, mkLogRecord "tardis_em" INFO msg (now s)) s1
     else s1).
Proof.
  intros s1. unfold Logger_info, Logger_log. subst s1.
  rewrite isEnabledFor_outcome.
  destruct (info_enabled lvl s) eqn:Hen; [|reflexivity].
  rewrite outcome_logger. cbn [disabled].
  assert (Hd : disabled (logger_at s "tardis_em") = false).
  { unfold info_enabled in Hen. destruct (disabled (logger_at s "tardis_em"));
      [discriminate|reflexivity]. }
  rewrite Hd.
  destruct (outcome_world "tardis_em" lvl co s fs' file) as (_ & _ & _ & _ & -> & _).
  rewrite (callHandlers_outcome "tardis_em" lvl co s fs' file msg (now s))
    by (apply (info_enabled_level lvl s), Hen).
  reflexivity.
Qed.

Lemma configure_tardis_logging_run lvl lf co fo s :
  configure_tardis_logging lvl lf co fo s
  = match setup_logger (Some "tardis_em") lvl lf co fo s with
    | (Ok _, s1) => Logger_info "tardis_em" "TARDIS-em logging initialized" s1
    | (Raise e, s1) => (Raise e, s1)
    end.
Proof.
  unfold configure_tardis_logging. rewrite bind_run.
  destruct (setup_logger_spec (Some "tardis_em") lvl lf co fo s);
    try reflexivity.
  - destruct (outcome_registered "tardis_em" lvl co s (fs s) None) as [l Hl].
    exact (getLogger_registered (Some "tardis_em")
             (λ logger, Logger_info logger "TARDIS-em logging initialized") _ l Hl).
  - destruct (outcome_registered "tardis_em" lvl co s fs2
                (Some (log_target lf s))) as [l Hl].
    exact (getLogger_registered (Some "tardis_em")
             (λ logger, Logger_info logger "TARDIS-em logging initialized") _ l Hl).
Qed.

Lemma after_info (b co : bool) (file : option (list string)) l s1 :
  let s2 := if b then written co file l s1 else s1 in
  loggerDict s2 = loggerDict s1
  ∧ hstore s2 = hstore s1
  ∧ stderr s2 = stderr s1
  ∧ stdout s2 = (stdout s1 ++ if co && b then [l] else [])%list
  ∧ fs s2 = match file with
            | Some p => if b then write_file (fs s1) p l else fs s1
            | None => fs s1
            end.
Proof.
  destruct b, co, file; cbn; rewrite ?app_nil_r; auto.
Qed.

(** C7: [configure_tardis_logging] configures the logger registered as
    ["tardis_em"] and no other: every other registry entry is untouched, and
    the registry and the handler store end as [setup_logger] leaves them
    when called with that name and the same level, log file and output
    switches.  When [setup_logger] raises, the exception goes on to the
    caller and nothing is logged.  When it returns, the call returns and the
    record "TARDIS-em logging initialized" is logged at [INFO] on that
    logger: if [INFO] gets through there, the record is written once to
    standard output when a console handler was asked for and once to the log
    file when a file handler was; otherwise nothing is written. *)
Theorem configure_tardis_logging_spec lvl log_file console_output file_output s :
  let r1 := setup_logger (Some "tardis_em") lvl log_file console_output file_output s in
  let rs := configure_tardis_logging lvl log_file console_output file_output s in
  let ln := (Some (mkFormatter log_fmt log_datefmt),
             mkLogRecord "tardis_em" 20 "TARDIS-em logging initialized" (now s)) in
  (∀ k, k ≠ "tardis_em" → loggerDict rs.2 !! k = loggerDict s !! k)
  ∧ loggerDict rs.2 = loggerDict r1.2
  ∧ hstore rs.2 = hstore r1.2
  ∧ match r1.1 with
    | Raise e => rs = (Raise e, r1.2)
    | Ok _ =>
        rs.1 = Ok tt
        ∧ stdout rs.2
          = (stdout s ++ if console_output && info_enabled lvl s then [ln] else [])%list
        ∧ stderr rs.2 = stderr s
        ∧ fs rs.2 = if file_output && info_enabled lvl s
                    then write_file (fs r1.2) (log_target log_file s) ln
                    else fs r1.2
    end.
Proof.
  intros r1 rs ln. subst r1 rs. rewrite configure_tardis_logging_run.
  destruct (setup_logger_spec (Some "tardis_em") lvl log_file
              console_output file_output s) as [Hfo|fs2 Hfo Hout|e fs1 Hfo _ _ _|e Hfo _ _];
    change (resolve (Some "tardis_em")) with "tardis_em"; cbn [fst snd].
  - rewrite Logger_info_outcome, Hfo.
    change (Some formatter0,
            mkLogRecord "tardis_em" INFO "TARDIS-em logging initialized" (now s))
      with ln.
    cbn [fst snd andb].
    set (s1 := outcome_state "tardis_em" lvl console_output s (fs s) None).
    destruct (after_info (info_enabled lvl s) console_output None ln s1)
      as (Hl & Hh & He & Ho & Hf).
    destruct (outcome_world "tardis_em" lvl console_output s (fs s) None)
      as (_ & Hso & Hse & _).
    fold s1 in Hso, Hse.
    split; [|split; [|split; [|split; [|split; [|split]]]]].
    + intros k Hk. rewrite Hl. apply outcome_other_loggers, Hk.
    + exact Hl.
    + exact Hh.
    + reflexivity.
    + rewrite Ho, Hso. reflexivity.
    + rewrite He, Hse. reflexivity.
    + exact Hf.
  - rewrite Logger_info_outcome, Hfo.
    change (Some formatter0,
            mkLogRecord "tardis_em" INFO "TARDIS-em logging initialized" (now s))
      with ln.
    cbn [fst snd andb].
    set (s1 := outcome_state "tardis_em" lvl console_output s fs2
                 (Some (log_target log_file s))).
    destruct (after_info (info_enabled lvl s) console_output
                (Some (log_target log_file s)) ln s1)
      as (Hl & Hh & He & Ho & Hf).
    destruct (outcome_world "tardis_em" lvl console_output s fs2
                (Some (log_target log_file s))) as (_ & Hso & Hse & _).
    fold s1 in Hso, Hse.
    split; [|split; [|split; [|split; [|split; [|split]]]]].
    + intros k Hk. rewrite Hl. apply outcome_other_loggers, Hk.
    + exact Hl.
    + exact Hh.
    + reflexivity.
    + rewrite Ho, Hso. reflexivity.
    + rewrite He, Hse. reflexivity.
    + exact Hf.
  - split; [|auto]. intros k Hk. apply outcome_other_loggers, Hk.
  - split; [|auto]. intros k Hk. apply outcome_other_loggers, Hk.
Qed.

(** ** Package initialisation *)

Lemma configure_tardis_logging_environ lvl lf co fo s :
  environ (configure_tardis_logging lvl lf co fo s).2 = environ s.
Proof.
  rewrite configure_tardis_logging_run.
  destruct (setup_logger_spec (Some "tardis_em") lvl lf co fo s);
    unfold Logger_info;
    try (destruct (Logger_log_same "tardis_em" INFO "TARDIS-em logging initialized"
                     (outcome_state (resolve (Some "tardis_em")) lvl co s (fs s) None))
           as (s' & -> & Hsame); cbn [snd]; rewrite (so_environ _ _ Hsame));
    try (destruct (Logger_log_same "tardis_em" INFO "TARDIS-em logging initialized"
                     (outcome_state (resolve (Some "tardis_em")) lvl co s fs2
                        (Some (log_target lf s))))
           as (s' & -> & Hsame); cbn [snd]; rewrite (so_environ _ _ Hsame));
    cbn [snd]; apply outcome_world.
Qed.

Lemma getLogger_then_log_environ name lvl msg s :
  environ ((logger ← getLogger name; Logger_log logger lvl msg) s).2 = environ s.
Proof.
  unfold getLogger, modify, mbind, M_bind, mret, M_ret. cbv beta iota.
  match goal with
  | |- context [Logger_log ?k lvl msg ?st] =>
      destruct (Logger_log_same k lvl msg st) as (s' & -> & Hsame)
  end.
  cbn [snd]. rewrite (so_environ _ _ Hsame). destruct s; reflexivity.
Qed.

(** C6: running the body of [tardis_em/__init__.py], from any prior state
    and whether or not the logging set-up that follows raises, leaves the
    environment variable [PYTORCH_ENABLE_MPS_FALLBACK] set to ["1"], a prior
    value being overwritten, and no other variable changed. *)
Theorem tardis_em_init_sets_mps_fallback s :
  let rs := tardis_em_init s in
  environ rs.2 !! "PYTORCH_ENABLE_MPS_FALLBACK" = Some "1"
  ∧ environ rs.2 = <["PYTORCH_ENABLE_MPS_FALLBACK" := "1"]> (environ s).
Proof.
  intros rs.
  assert (Henv : environ rs.2 = <["PYTORCH_ENABLE_MPS_FALLBACK" := "1"]> (environ s)).
  { subst rs. unfold tardis_em_init. rewrite bind_run.
    unfold environ_setitem at 1, modify at 1. rewrite bind_run.
    set (se := set_environ _ s).
    pose proof (configure_tardis_logging_environ INFO None true true se) as Hc.
    destruct (configure_tardis_logging INFO None true true se) as [[[]|e] s2];
      cbn [snd] in Hc.
    - unfold Logger_info. rewrite getLogger_then_log_environ, Hc. reflexivity.
    - cbn [snd]. rewrite Hc. reflexivity. }
  split; [|exact Henv].
  rewrite Henv. apply lookup_insert_eq.
Qed.

(** ** Sequences of [setup_logger] calls on one name *)

Lemma setup_logger_view name lvl lf co fo s :
  let s' := (setup_logger name lvl lf co fo s).2 in
  level (logger_at s' (resolve name)) = lvl
  ∧ handlers_of s' (resolve name)
    = (console_view lvl co
       ++ if fo then
            match file_outcome lf s with
            | Ok _ => file_view lvl (log_target lf s)
            | Raise _ => []
            end
          else [])%list.
Proof.
  intros s'. subst s'.
  destruct (setup_logger_spec name lvl lf co fo s) as [->|fs2 -> H|e fs1 -> H _ _|e -> -> H];
    cbn [snd]; rewrite outcome_logger, outcome_handlers_of; cbn [level from_option];
    split; try reflexivity.
  - rewrite H. reflexivity.
  - rewrite H. reflexivity.
  - unfold file_outcome. rewrite H. reflexivity.
Qed.

(** C1: after any sequence of [setup_logger] calls on one name, made at any
    times, with any arguments, returning or raising, the logger's level and
    its handlers are those the last call produces on its own, from a
    [logging] library never used before, in the world the last call ran in.
    The level is the last call's; the handlers are at most the last call's
    console handler followed by its file handler: nothing of the earlier
    calls stays, so calls do not pile handlers up. *)
Theorem setup_logger_last_call_wins name tcs tc s :
  let key := resolve name in
  let before := run_calls name tcs s in
  let final := run_calls name (tcs ++ [tc]) s in
  let alone := call_at name tc (fresh_logging before) in
  let f := mkFormatter log_fmt log_datefmt in
  level (logger_at final key) = level (logger_at alone key)
  ∧ handlers_of final key = handlers_of alone key
  ∧ level (logger_at final key) = c_level tc.2
  ∧ (∃ tail,
       handlers_of final key
       = ((if c_console tc.2
           then [Some (mkHandler (StreamHandler Stdout) (c_level tc.2) (Some f))]
           else []) ++ tail)%list
       ∧ (tail = []
          ∨ c_file tc.2 = true
            ∧ ∃ p, tail = [Some (mkHandler (FileHandler p) (c_level tc.2) (Some f))]))
  ∧ (length (handlers (logger_at final key)) ≤ 2)%nat.
Proof.
  intros key before final alone f.
  assert (Hfinal : final = call_at name tc before).
  { subst final before. unfold run_calls. rewrite foldl_app. reflexivity. }
  rewrite Hfinal. clear Hfinal final. subst alone. unfold call_at.
  destruct tc as [t [lvl lf co fo]]. cbn [fst snd c_level c_log_file c_console c_file].
  destruct (setup_logger_view name lvl lf co fo (set_now t before)) as [Hl Hh].
  destruct (setup_logger_view name lvl lf co fo (set_now t (fresh_logging before)))
    as [Hl' Hh'].
  change (file_outcome lf (set_now t (fresh_logging before)))
    with (file_outcome lf (set_now t before)) in Hh'.
  change (log_target lf (set_now t (fresh_logging before)))
    with (log_target lf (set_now t before)) in Hh'.
  fold key in Hl, Hh, Hl', Hh'.
  split; [congruence|]. split; [congruence|]. split; [exact Hl|].
  split.
  - eexists. split; [exact Hh|].
    destruct fo; [|auto].
    destruct (file_outcome lf (set_now t before)); [|auto].
    right. split; [reflexivity|]. eexists. reflexivity.
  - apply (f_equal length) in Hh. unfold handlers_of in Hh.
    rewrite length_fmap, length_app in Hh. rewrite Hh.
    assert (length (console_view lvl co) ≤ 1)%nat by (destruct co; cbn; lia).
    destruct fo; [|cbn; lia].
    destruct (file_outcome lf (set_now t before)); cbn; lia.
Qed.

(** * Further properties *)

(** ** [setup_logger] and the filesystem *)










(** ** [get_logger] *)

Lemma getLogger_run name s :
  getLogger name s
  = (Ok (resolve name),
     set_loggerDict (λ d, <[resolve name := logger_at s (resolve name)]> d) s).
Proof. reflexivity. Qed.

Lemma register_same key s :
  is_Some (loggerDict s !! key) →
  set_loggerDict (λ d, <[key := logger_at s key]> d) s = s.
Proof.
  intros [l Hl]. destruct s. unfold set_loggerDict, logger_at in *. cbn in *.
  rewrite Hl. cbn. rewrite insert_id by exact Hl. reflexivity.
Qed.

Lemma logger_at_register key s k :
  logger_at (set_loggerDict (λ d, <[key := logger_at s key]> d) s) k = logger_at s k.
Proof.
  unfold logger_at, set_loggerDict. cbn.
  destruct (decide (key = k)) as [<-|Hne].
  - rewrite lookup_insert_eq. reflexivity.
  - rewrite lookup_insert_ne by exact Hne. reflexivity.
Qed.

(** X2: [get_logger] never raises and configures nothing: it returns the
    logger of that name (the root logger for the empty string), and no
    logger's level, propagation, disabled flag or handler list changes, nor
    does any handler, the filesystem, a stream or the environment.  Called
    after [setup_logger] on the same name it returns the very logger
    [setup_logger] configured and the state is exactly as [setup_logger] left
    it. *)
Theorem get_logger_configures_nothing name s :
  (∃ s', get_logger name s = (Ok (resolve (Some name)), s')
     ∧ (∀ k, logger_at s' k = logger_at s k)
     ∧ hstore s' = hstore s ∧ next_href s' = next_href s
     ∧ fs s' = fs s ∧ stdout s' = stdout s ∧ stderr s' = stderr s
     ∧ environ s' = environ s)
  ∧ (∀ lvl log_file console_output file_output,
       let rs := setup_logger (Some name) lvl log_file console_output file_output s in
       get_logger name rs.2 = (Ok (resolve (Some name)), rs.2)
       ∧ match rs.1 with Ok k => k = resolve (Some name) | Raise _ => True end).
Proof.
  split.
  - unfold get_logger. rewrite getLogger_run. eexists. split; [reflexivity|].
    split; [intros k; apply logger_at_register|].
    destruct s; repeat split.
  - intros lvl lf co fo rs. subst rs. unfold get_logger. rewrite getLogger_run.
    destruct (setup_logger_spec (Some name) lvl lf co fo s); cbn [fst snd];
      (split; [|reflexivity]);
      rewrite register_same by apply outcome_registered; reflexivity.
Qed.

(** ** [set_log_level] composed with itself and with [setup_logger] *)

Lemma foldl_relevel_twice l1 l2 hs (m : gmap nat Handler) :
  foldl (λ m h, alter (relevel l2) h m)
        (foldl (λ m h, alter (relevel l1) h m) m hs) hs
  = foldl (λ m h, alter (relevel l2) h m) m hs.
Proof.
  apply map_eq. intros r. rewrite !lookup_foldl_relevel.
  destruct (bool_decide (r ∈ hs)); [|reflexivity].
  destruct (m !! r); reflexivity.
Qed.

(** X3: two [set_log_level] calls in a row leave exactly the state the second
    one alone leaves: the last level wins, on the logger and on each of its
    handlers, and nothing of the first call remains. *)
Theorem set_log_level_last_wins l1 l2 s :
  (set_log_level l1;; set_log_level l2) s = set_log_level l2 s.
Proof.
  rewrite bind_run, (set_log_level_run l1 s). cbv zeta.
  set (l := logger_at s "tardis_em").
  match goal with |- context [set_log_level l2 ?st] => set (s1 := st) end.
  assert (H1 : logger_at s1 "tardis_em"
               = mkLogger l1 (propagate l) (disabled l) (handlers l)).
  { unfold logger_at at 1. cbn. rewrite lookup_insert_eq. reflexivity. }
  rewrite (set_log_level_run l2 s1), (set_log_level_run l2 s). cbv zeta.
  rewrite H1. fold l. subst s1.
  cbn [loggerDict hstore next_href manager_disable fs stdout stderr environ
       home now propagate disabled handlers].
  rewrite insert_insert_eq, foldl_relevel_twice. reflexivity.
Qed.

Lemma setup_logger_state name lvl lf co fo s :
  (setup_logger name lvl lf co fo s).2
  = outcome_state (resolve name) lvl co s (outcome_fs_of lf fo s) (outcome_file_of lf fo s).
Proof.
  unfold outcome_fs_of, outcome_file_of, file_outcome. destruct fo.
  - destruct lf as [p|].
    + rewrite setup_logger_explicit.
      destruct (open_append (fs s) p); cbn [snd log_target]; [reflexivity|].
      symmetry. apply outcome_state_same.
    + rewrite setup_logger_default.
      destruct (Path_mkdir (fs s) (log_dir s)) as [fs1|e].
      * destruct (open_append fs1 (default_log_file s)); reflexivity.
      * cbn [snd]. symmetry. apply outcome_state_same.
  - rewrite setup_logger_no_file. cbn [snd]. symmetry. apply outcome_state_same.
Qed.

Lemma set_log_level_outcome l1 l2 co s fs' file :
  (set_log_level l2 (outcome_state "tardis_em" l1 co s fs' file)).2
  = outcome_state "tardis_em" l2 co s fs' file.
Proof.
  rewrite set_log_level_run. cbv zeta. cbn [snd].
  rewrite outcome_logger, outcome_handlers. cbn [propagate disabled handlers].
  destruct s. destruct co, file as [p|]; unfold outcome_state, with_console,
    attached, cleared, set_fs, logger_at; cbn;
    rewrite ?lookup_insert_eq; cbn; rewrite ?lookup_insert_eq; cbn.
  all: rewrite ?(bool_decide_eq_false_2 (_ ∈ [])) by apply not_elem_of_nil; cbn.
  all: rewrite ?bool_decide_eq_false_2 by (rewrite list_elem_of_singleton; lia); cbn.
  all: rewrite ?insert_insert_eq, ?alter_insert_ne by lia.
  all: rewrite ?alter_insert_eq; reflexivity.
Qed.

(** X4: changing the level with [set_log_level] after [setup_logger]
    configured ["tardis_em"] gives exactly the state [setup_logger] would
    have left had it been called with the new level in the first place (same
    arguments otherwise, returning or raising); [set_log_level] itself
    returns normally. *)
Theorem set_log_level_after_setup_logger l1 l2 log_file console_output file_output s :
  let setup lvl :=
    setup_logger (Some "tardis_em") lvl log_file console_output file_output s in
  set_log_level l2 (setup l1).2 = (Ok tt, (setup l2).2).
Proof.
  intros setup. subst setup. cbv beta.
  rewrite !setup_logger_state. change (resolve (Some "tardis_em")) with "tardis_em".
  rewrite <- (set_log_level_outcome l1 l2).
  rewrite set_log_level_run. reflexivity.
Qed.

(** ** The logger hierarchy under ["tardis_em"] *)



Lemma logger_at_agree s s' k :
  loggerDict s' !! k = loggerDict s !! k → logger_at s' k = logger_at s k.
Proof. unfold logger_at. intros ->. reflexivity. Qed.



Lemma no_dot_get c j : no_dot c = true → dot_at c j = false.
Proof.
  revert j. induction c as [|a c IH]; intros j H; [destruct j; reflexivity|].
  cbn in H. apply andb_true_iff in H as [Ha Hc].
  destruct j as [|j]; unfold dot_at; cbn.
  - destruct (Ascii.eqb a "."); [discriminate|reflexivity].
  - apply (IH j Hc).
Qed.

Lemma rfind_prefixes_child c n :
  no_dot c = true →
  rfind_prefixes ("tardis_em." +:+ c) (10 + n) = ["tardis_em"].
Proof.
  intros Hc. induction n as [|n IH]; [reflexivity|].
  change (10 + S n)%nat with (S (10 + n)). cbn [rfind_prefixes].
  change (dot_at ("tardis_em." +:+ c) (10 + n)) with (dot_at c n).
  rewrite (no_dot_get c n Hc). exact IH.
Qed.

(** The module loggers directly under the package are such descendants. *)
Lemma below_tardis_em_child s c :
  no_dot c = true → unconfigured s ("tardis_em." +:+ c) →
  below_tardis_em s ("tardis_em." +:+ c).
Proof.
  intros Hc Hu. exists []. split.
  - unfold chain, ancestors.
    change (String.length ("tardis_em." +:+ c)) with (10 + String.length c)%nat.
    rewrite (rfind_prefixes_child c _ Hc). reflexivity.
  - constructor; [|constructor]. split; [discriminate|exact Hu].
Qed.

(** ** Records logged by the package's modules *)

(** A record offered to the handlers [setup_logger] attached. *)
Lemma deliver r st hs lvl co file :
  (λ h, hstore st !! h) <$> hs
  = (console_view lvl co ++ from_option (file_view lvl) [] file)%list →
  Z.leb lvl (r_levelno r) = true →
  foldl (handle_one r) st hs = written co file (Some formatter0, r) st.
Proof.
  intros Hv Hlvl.
  destruct co, file as [p|]; cbn in Hv;
    repeat (destruct hs as [|? hs]; try discriminate Hv); cbn in Hv |- *.
  - injection Hv as Hc Hf.
    rewrite (handle_one_emit r st _ _ Hc Hlvl). cbn [h_kind h_formatter].
    rewrite (handle_one_emit r (emit (StreamHandler Stdout) (Some formatter0, r) st)
               _ _ Hf Hlvl).
    apply (written_cases (Some formatter0, r) st p).
  - injection Hv as Hc.
    rewrite (handle_one_emit r st _ _ Hc Hlvl).
    apply (written_cases (Some formatter0, r) st []).
  - injection Hv as Hf.
    rewrite (handle_one_emit r st _ _ Hf Hlvl).
    apply (written_cases (Some formatter0, r) st p).
  - apply (written_cases (Some formatter0, r) st []).
Qed.

Lemma callHandlers_info_deliver key msg t st hs lvl co file :
  chain_handlers st (chain key) = hs →
  (λ h, hstore st !! h) <$> hs
  = (console_view lvl co ++ from_option (file_view lvl) [] file)%list →
  (lvl ≤ INFO)%Z →
  callHandlers key (mkLogRecord key INFO msg t) st
  = written co file (Some formatter0, mkLogRecord key INFO msg t) st.
Proof.
  intros Hch Hv Hlvl. unfold callHandlers. rewrite Hch.
  apply Z.leb_le in Hlvl.
  rewrite <- (deliver (mkLogRecord key INFO msg t) st hs lvl co file Hv Hlvl).
  destruct hs; reflexivity.
Qed.

Lemma configure_ok_state lvl lf co fo s :
  (configure_tardis_logging lvl lf co fo s).1 = Ok tt →
  let file := if fo then Some (log_target lf s) else None in
  let s1 := outcome_state "tardis_em" lvl co s (outcome_fs_of lf fo s) file in
  (configure_tardis_logging lvl lf co fo s).2
  = if info_enabled lvl s
    then written co file
           (Some formatter0,
            mkLogRecord "tardis_em" INFO "TARDIS-em logging initialized" (now s)) s1
    else s1.
Proof.
  rewrite configure_tardis_logging_run.
  rewrite (surjective_pairing (setup_logger (Some "tardis_em") lvl lf co fo s)).
  rewrite setup_logger_state, setup_logger_result.
  change (resolve (Some "tardis_em")) with "tardis_em".
  unfold outcome_file_of. destruct fo.
  - destruct (file_outcome lf s); [|discriminate]. intros _.
    rewrite Logger_info_outcome. reflexivity.
  - intros _. rewrite Logger_info_outcome. reflexivity.
Qed.




(** ** Handlers are never shared between loggers *)

Lemma handlers_private_ext s s' :
  loggerDict s' = loggerDict s → next_href s' = next_href s →
  handlers_private s → handlers_private s'.
Proof.
  intros Hl Hn [A U]. split.
  - intros k l h. rewrite Hl, Hn. apply A.
  - intros k1 k2 l1 l2 h. rewrite Hl. apply U.
Qed.

Lemma handlers_private_same s s' :
  same_but_output s s' → handlers_private s → handlers_private s'.
Proof. intros H. apply handlers_private_ext; [apply (so_loggers _ _ H)|apply (so_next _ _ H)]. Qed.

Lemma handlers_logger_at s key h :
  h ∈ handlers (logger_at s key) →
  ∃ l0, loggerDict s !! key = Some l0 ∧ h ∈ handlers l0.
Proof.
  unfold logger_at. destruct (loggerDict s !! key) as [l0|]; cbn.
  - eauto.
  - intros H. apply elem_of_nil in H. contradiction.
Qed.

(** A registry entry replaced by one with the same handler list. *)
Lemma handlers_private_update s s' key l' :
  loggerDict s' = <[key := l']> (loggerDict s) → next_href s' = next_href s →
  handlers l' = handlers (logger_at s key) →
  handlers_private s → handlers_private s'.
Proof.
  intros Hl Hn Hh Hp. pose proof Hp as [A U].
  assert (Hkey : ∀ h, h ∈ handlers l' →
                 ∃ l0, loggerDict s !! key = Some l0 ∧ h ∈ handlers l0).
  { intros h Hin. rewrite Hh in Hin. apply handlers_logger_at, Hin. }
  split.
  - intros k l h. rewrite Hl, Hn. destruct (decide (key = k)) as [<-|Hne].
    + rewrite lookup_insert_eq. intros [= <-] Hin.
      destruct (Hkey h Hin) as (l0 & H0 & Hin0). eapply A; eauto.
    + rewrite lookup_insert_ne by exact Hne. apply A.
  - intros k1 k2 l1 l2 h. rewrite Hl.
    destruct (decide (key = k1)) as [<-|Hne1]; destruct (decide (key = k2)) as [<-|Hne2];
      rewrite ?lookup_insert_eq, ?lookup_insert_ne by assumption.
    + reflexivity.
    + intros [= <-] H2 Hin1 Hin2. destruct (Hkey h Hin1) as (l0 & H0 & Hin0).
      eapply U; eauto.
    + intros H1 [= <-] Hin1 Hin2. destruct (Hkey h Hin2) as (l0 & H0 & Hin0).
      eapply U; eauto.
    + apply U.
Qed.

Lemma outcome_loggerDict key lvl co s fs' file :
  loggerDict (outcome_state key lvl co s fs' file)
  = <[key := logger_at (outcome_state key lvl co s fs' file) key]> (loggerDict s).
Proof.
  apply map_eq. intros k. destruct (decide (key = k)) as [<-|Hne].
  - rewrite lookup_insert_eq. unfold logger_at.
    destruct (outcome_registered key lvl co s fs' file) as [l ->]. reflexivity.
  - rewrite lookup_insert_ne by exact Hne. apply outcome_other_loggers. congruence.
Qed.

Lemma outcome_handlers_fresh key lvl co s fs' file h :
  h ∈ handlers (logger_at (outcome_state key lvl co s fs' file) key) →
  (next_href s ≤ h < next_href (outcome_state key lvl co s fs' file))%nat.
Proof.
  rewrite outcome_handlers.
  destruct co, file as [p|]; cbn;
    rewrite ?elem_of_cons, ?elem_of_nil; intros H; lia.
Qed.

Lemma outcome_next_href_le key lvl co s fs' file :
  (next_href s ≤ next_href (outcome_state key lvl co s fs' file))%nat.
Proof. destruct co, file as [p|]; cbn; lia. Qed.

Lemma handlers_private_outcome key lvl co s fs' file :
  handlers_private s → handlers_private (outcome_state key lvl co s fs' file).
Proof.
  intros [A U]. set (s' := outcome_state key lvl co s fs' file).
  pose proof (outcome_next_href_le key lvl co s fs' file) as Hle. fold s' in Hle.
  pose proof (outcome_handlers_fresh key lvl co s fs' file) as Hfresh. fold s' in Hfresh.
  pose proof (outcome_loggerDict key lvl co s fs' file) as Hl. fold s' in Hl.
  split.
  - intros k l h. rewrite Hl. destruct (decide (key = k)) as [<-|Hne].
    + rewrite lookup_insert_eq. intros [= <-] Hin. apply Hfresh in Hin. lia.
    + rewrite lookup_insert_ne by exact Hne. intros H Hin.
      pose proof (A _ _ _ H Hin). lia.
  - intros k1 k2 l1 l2 h. rewrite Hl.
    destruct (decide (key = k1)) as [<-|Hne1]; destruct (decide (key = k2)) as [<-|Hne2];
      rewrite ?lookup_insert_eq, ?lookup_insert_ne by assumption.
    + reflexivity.
    + intros [= <-] H2 Hin1 Hin2. apply Hfresh in Hin1.
      pose proof (A _ _ _ H2 Hin2). lia.
    + intros H1 [= <-] Hin1 Hin2. apply Hfresh in Hin2.
      pose proof (A _ _ _ H1 Hin1). lia.
    + apply U.
Qed.

Lemma handlers_private_setup name lvl lf co fo s :
  handlers_private s → handlers_private (setup_logger name lvl lf co fo s).2.
Proof. rewrite setup_logger_state. apply handlers_private_outcome. Qed.

Lemma handlers_private_register key s :
  handlers_private s →
  handlers_private (set_loggerDict (λ d, <[key := logger_at s key]> d) s).
Proof.
  apply (handlers_private_update s _ key (logger_at s key)); reflexivity.
Qed.

Lemma handlers_private_set_log_level lvl s :
  handlers_private s → handlers_private (set_log_level lvl s).2.
Proof.
  rewrite set_log_level_run. cbv zeta. cbn [snd].
  eapply (handlers_private_update s _ "tardis_em"); reflexivity.
Qed.

Lemma configure_tardis_logging_same lvl lf co fo s :
  same_but_output (setup_logger (Some "tardis_em") lvl lf co fo s).2
                  (configure_tardis_logging lvl lf co fo s).2.
Proof.
  rewrite configure_tardis_logging_run.
  destruct (setup_logger (Some "tardis_em") lvl lf co fo s) as [[k|e] s1]; cbn [snd].
  - unfold Logger_info.
    destruct (Logger_log_same "tardis_em" INFO "TARDIS-em logging initialized" s1)
      as (s' & -> & H). exact H.
  - apply same_but_output_refl.
Qed.

Lemma handlers_private_configure lvl lf co fo s :
  handlers_private s → handlers_private (configure_tardis_logging lvl lf co fo s).2.
Proof.
  intros H. eapply handlers_private_same; [apply configure_tardis_logging_same|].
  apply handlers_private_setup, H.
Qed.

Lemma handlers_private_get_then_log name lvl msg s :
  handlers_private s →
  handlers_private ((logger ← getLogger name; Logger_log logger lvl msg) s).2.
Proof.
  intros H. rewrite bind_run, getLogger_run.
  match goal with
  | |- context [Logger_log ?k lvl msg ?st] =>
      destruct (Logger_log_same k lvl msg st) as (s' & -> & Hsame)
  end.
  cbn [snd]. eapply handlers_private_same; [exact Hsame|].
  apply handlers_private_register, H.
Qed.

Lemma handlers_private_fresh s : handlers_private (fresh_logging s).
Proof. split; cbn; intros *; rewrite lookup_empty; discriminate. Qed.

Lemma handlers_private_init s :
  handlers_private s → handlers_private (tardis_em_init s).2.
Proof.
  intros H. unfold tardis_em_init. rewrite bind_run.
  unfold environ_setitem at 1, modify at 1. rewrite bind_run.
  set (se := set_environ _ s).
  assert (Hse : handlers_private se)
    by (eapply handlers_private_ext; [| |exact H]; reflexivity).
  pose proof (handlers_private_configure INFO None true true se Hse) as Hc.
  destruct (configure_tardis_logging INFO None true true se) as [[[]|e] s2];
    cbn [snd] in Hc |- *; [|exact Hc].
  unfold Logger_info. apply handlers_private_get_then_log, Hc.
Qed.

(** X7: the module keeps handler objects private to their logger.  In a
    [logging] library nobody has used every handler on a logger was
    allocated and none is on two loggers; [setup_logger], [get_logger],
    [set_log_level], [configure_tardis_logging] and the package
    initialisation each keep that, whatever their arguments and whether they
    return or raise. *)
Theorem handlers_stay_private s :
  handlers_private (fresh_logging s)
  ∧ (handlers_private s →
     (∀ name lvl log_file console_output file_output,
        handlers_private
          (setup_logger name lvl log_file console_output file_output s).2)
     ∧ (∀ name, handlers_private (get_logger name s).2)
     ∧ (∀ lvl, handlers_private (set_log_level lvl s).2)
     ∧ (∀ lvl log_file console_output file_output,
          handlers_private
            (configure_tardis_logging lvl log_file console_output file_output s).2)
     ∧ handlers_private (tardis_em_init s).2).
Proof.
  split; [apply handlers_private_fresh|].
  intros H. split; [|split; [|split; [|split]]].
  - intros. apply handlers_private_setup, H.
  - intros name. unfold get_logger. rewrite getLogger_run. cbn [snd].
    apply handlers_private_register, H.
  - intros lvl. apply handlers_private_set_log_level, H.
  - intros. apply handlers_private_configure, H.
  - apply handlers_private_init, H.
Qed.

Lemma handlers_stay_private_witness :
  handlers_private (tardis_em_init (fresh_logging s0)).2.
Proof.
  destruct (handlers_stay_private (fresh_logging s0)) as [H0 H].
  apply (H H0).
Defined.

(** X8: [set_log_level] acts on the logger named ["tardis_em"] only.  A
    logger [setup_logger] configured under any other name, a dotted
    descendant of ["tardis_em"] included, keeps the level it was given, and
    so does each of its handlers, when [set_log_level] is called. *)
Theorem set_log_level_spares_other_loggers
    name l1 l2 log_file console_output file_output s :
  handlers_private s → resolve name ≠ "tardis_em" →
  let s1 := (setup_logger name l1 log_file console_output file_output s).2 in
  let s2 := (set_log_level l2 s1).2 in
  logger_at s2 (resolve name) = logger_at s1 (resolve name)
  ∧ handlers_of s2 (resolve name) = handlers_of s1 (resolve name)
  ∧ level (logger_at s2 (resolve name)) = l1
  ∧ Forall (λ oh, ∃ h, oh = Some h ∧ h_level h = l1) (handlers_of s2 (resolve name)).
Proof.
  intros Hp Hne s1 s2.
  assert (Hp1 : handlers_private s1) by apply handlers_private_setup, Hp.
  assert (Hat : logger_at s2 (resolve name) = logger_at s1 (resolve name)).
  { apply logger_at_agree. subst s2. rewrite set_log_level_run. cbn.
    apply lookup_insert_ne. congruence. }
  assert (Hh : handlers_of s2 (resolve name) = handlers_of s1 (resolve name)).
  { unfold handlers_of. rewrite Hat. apply Forall_fmap_ext_1, Forall_forall.
    intros h Hin. subst s2. rewrite set_log_level_run. cbn [snd hstore].
    rewrite lookup_foldl_relevel, bool_decide_eq_false_2; [reflexivity|].
    intros Hin'.
    apply handlers_logger_at in Hin as (la & Ha & Hina).
    apply handlers_logger_at in Hin' as (lb & Hb & Hinb).
    apply Hne. apply (hp_unshared _ Hp1 _ _ _ _ _ Ha Hb Hina Hinb). }
  assert (Hs1 : level (logger_at s1 (resolve name)) = l1
                ∧ Forall (λ oh, ∃ h, oh = Some h ∧ h_level h = l1)
                    (handlers_of s1 (resolve name))).
  { subst s1. rewrite setup_logger_state, outcome_logger, outcome_handlers_of.
    split; [reflexivity|]. apply Forall_app. split.
    - destruct console_output; cbn; repeat constructor. eexists. split; reflexivity.
    - destruct (outcome_file_of log_file file_output s); cbn; repeat constructor.
      eexists. split; reflexivity. }
  destruct Hs1 as [Hl Hf]. rewrite Hat, Hh. auto.
Qed.

Lemma set_log_level_spares_other_loggers_witness :
  let s := (setup_logger (Some "tardis_em") 20 None true false (fresh_logging s0)).2 in
  handlers_of
    (set_log_level 40 (setup_logger (Some "tardis_em.train") 10 None true false s).2).2
    "tardis_em.train"
  = handlers_of (setup_logger (Some "tardis_em.train") 10 None true false s).2
      "tardis_em.train".
Proof.
  intros s.
  refine (proj1 (proj2 (set_log_level_spares_other_loggers (Some "tardis_em.train")
                          10 40 None true false s _ _))).
  - apply handlers_private_setup, handlers_private_fresh.
  - discriminate.
Defined.

(** ** The package initialisation, in full *)

Lemma effective_level_ext st st' ks :
  (∀ k, logger_at st k = logger_at st' k) →
  effective_level st ks = effective_level st' ks.
Proof.
  intros H. induction ks as [|k ks IH]; [reflexivity|].
  cbn [effective_level]. rewrite H, IH. reflexivity.
Qed.

Lemma chain_handlers_ext st st' ks :
  (∀ k, logger_at st k = logger_at st' k) →
  chain_handlers st ks = chain_handlers st' ks.
Proof.
  intros H. induction ks as [|k ks IH]; [reflexivity|].
  cbn [chain_handlers]. rewrite H, IH. reflexivity.
Qed.

Lemma isEnabledFor_ext st st' key lvl :
  (∀ k, logger_at st k = logger_at st' k) →
  manager_disable st = manager_disable st' →
  isEnabledFor st key lvl = isEnabledFor st' key lvl.
Proof.
  intros H Hm. unfold isEnabledFor, getEffectiveLevel.
  rewrite H, Hm, (effective_level_ext st st' _ H). reflexivity.
Qed.

(** [logger.info] on ["tardis_em"] in any state whose loggers and handlers
    are those [setup_logger] left. *)
Lemma Logger_info_configured st lvl co s fs' file msg :
  let s1 := outcome_state "tardis_em" lvl co s fs' file in
  (∀ k, logger_at st k = logger_at s1 k) → hstore st = hstore s1 →
  manager_disable st = manager_disable s1 →
  Logger_info "tardis_em" msg st
  = (Ok tt,
     if info_enabled lvl s
     then written co file (Some formatter0, mkLogRecord "tardis_em" INFO msg (now st)) st
     else st).
Proof.
  intros s1 Hat Hhs Hmd. unfold Logger_info, Logger_log.
  rewrite (isEnabledFor_ext st s1 _ _ Hat Hmd). subst s1.
  rewrite isEnabledFor_outcome.
  destruct (info_enabled lvl s) eqn:Hen; [|reflexivity].
  rewrite Hat, outcome_logger. cbn [disabled].
  assert (Hd : disabled (logger_at s "tardis_em") = false).
  { unfold info_enabled in Hen. destruct (disabled (logger_at s "tardis_em"));
      [discriminate|reflexivity]. }
  rewrite Hd.
  rewrite (callHandlers_info_deliver "tardis_em" msg (now st) st
             (handlers (logger_at (outcome_state "tardis_em" lvl co s fs' file)
                          "tardis_em")) lvl co file).
  - reflexivity.
  - rewrite (chain_handlers_ext st _ _ Hat). apply chain_handlers_own.
    rewrite outcome_logger. reflexivity.
  - rewrite Hhs. apply outcome_handlers_of.
  - apply (info_enabled_level lvl s), Hen.
Qed.

Lemma configure_tardis_logging_result lvl lf co fo s :
  (configure_tardis_logging lvl lf co fo s).1
  = if fo then
      match file_outcome lf s with
      | Ok _ => Ok tt
      | Raise e => Raise e
      end
    else Ok tt.
Proof.
  rewrite configure_tardis_logging_run.
  rewrite (surjective_pairing (setup_logger (Some "tardis_em") lvl lf co fo s)).
  rewrite setup_logger_result, setup_logger_state.
  change (resolve (Some "tardis_em")) with "tardis_em".
  destruct fo; [destruct (file_outcome lf s)|];
    rewrite ?Logger_info_outcome; reflexivity.
Qed.

Lemma file_outcome_default_ok s :
  can_mkdir (fs s) (log_dir s) = true →
  dir_usable (fs s) (log_dir s) = true →
  appendable (fs s) (default_log_file s) = true →
  ∃ fs2, file_outcome None s = Ok fs2
         ∧ fs2 !! default_log_file s
           = Some (File true match fs s !! default_log_file s with
                             | Some (File _ x) => x
                             | _ => []
                             end).
Proof.
  intros Hmk Hdir Happ.
  destruct (Path_mkdir_ok _ _ Hmk) as (fs1 & Hmkdir & Hpost).
  destruct (open_append_in_made_dir _ _ _ _ Hpost Hdir Happ) as (fs2 & Hopen & _ & _).
  change (open_append fs1 (default_log_file s) = Ok fs2) in Hopen.
  exists fs2. unfold file_outcome. rewrite Hmkdir. split; [exact Hopen|].
  assert (Hsame : fs1 !! default_log_file s = fs s !! default_log_file s)
    by (apply (mk_deeper _ _ _ Hpost); cbn; lia).
  destruct (open_append_Ok _ _ _ Hopen) as [[-> [x Hx]]|(Hnone & _ & ->)].
  - rewrite <- Hsame, Hx. reflexivity.
  - rewrite <- Hsame, Hnone. apply lookup_insert_eq.
Qed.

Lemma tardis_em_init_run s :
  let se := set_environ (λ e, <["PYTORCH_ENABLE_MPS_FALLBACK" := "1"]> e) s in
  tardis_em_init s
  = match configure_tardis_logging INFO None true true se with
    | (Ok _, s2) => Logger_info "tardis_em" "TARDIS initialized" s2
    | (Raise e, s2) => (Raise e, s2)
    end.
Proof.
  intros se. unfold tardis_em_init. rewrite bind_run.
  unfold environ_setitem at 1, modify at 1. fold se. rewrite bind_run.
  pose proof (configure_tardis_logging_same INFO None true true se) as Hsame.
  destruct (configure_tardis_logging INFO None true true se) as [[[]|e] s2];
    [|reflexivity].
  cbn [snd] in Hsame.
  apply (getLogger_registered (Some "tardis_em")
           (λ logger, Logger_info logger "TARDIS initialized") s2
           (logger_at (setup_logger (Some "tardis_em") INFO None true true se).2
              "tardis_em")).
  rewrite (so_loggers _ _ Hsame), setup_logger_state.
  change (resolve (Some "tardis_em")) with "tardis_em".
  rewrite outcome_loggerDict. apply lookup_insert_eq.
Qed.

(** X9: importing the package on a filesystem where the log directory can be
    made (or exists) and the log file opened, with the ["tardis_em"] logger
    not disabled and [logging.disable] below [INFO]: the module body runs to
    its end; exactly two records, "TARDIS-em logging initialized" then
    "TARDIS initialized", both at [INFO] under the name ["tardis_em"], are
    appended to standard output and, in the same order, to the log file after
    whatever the file held; nothing goes to standard error; and the logger is
    left at [INFO] with the console handler and the file handler. *)
Theorem tardis_em_init_logs_two_records s :
  let dir := home s // ".tardis_em" // "logs" in
  let file := default_log_file s in
  let f := mkFormatter log_fmt log_datefmt in
  let r1 := (Some f, mkLogRecord "tardis_em" 20 "TARDIS-em logging initialized" (now s)) in
  let r2 := (Some f, mkLogRecord "tardis_em" 20 "TARDIS initialized" (now s)) in
  let old := match fs s !! file with Some (File _ x) => x | _ => [] end in
  can_mkdir (fs s) dir = true →
  dir_usable (fs s) dir = true →
  appendable (fs s) file = true →
  disabled (logger_at s "tardis_em") = false →
  (manager_disable s < 20)%Z →
  ∃ s', tardis_em_init s = (Ok tt, s')
    ∧ stdout s' = (stdout s ++ [r1; r2])%list
    ∧ stderr s' = stderr s
    ∧ fs s' !! file = Some (File true (old ++ [r1; r2]))
    ∧ level (logger_at s' "tardis_em") = 20
    ∧ handlers_of s' "tardis_em"
      = [Some (mkHandler (StreamHandler Stdout) 20 (Some f));
         Some (mkHandler (FileHandler file) 20 (Some f))].
Proof.
  intros dir file f r1 r2 old Hmk Hdir Happ Hdis Hmd.
  set (se := set_environ (λ e, <["PYTORCH_ENABLE_MPS_FALLBACK" := "1"]> e) s).
  destruct (file_outcome_default_ok se Hmk Hdir Happ) as (fs2 & Hout & Hfile).
  change (default_log_file se) with file in Hfile.
  change (fs se !! file) with (fs s !! file) in Hfile. fold old in Hfile.
  assert (Hen : info_enabled INFO se = true).
  { unfold info_enabled. change (logger_at se "tardis_em") with (logger_at s "tardis_em").
    rewrite Hdis. change (manager_disable se) with (manager_disable s).
    cbn [negb andb]. replace (Z.leb INFO (manager_disable s)) with false
      by (symmetry; apply Z.leb_gt; unfold INFO; lia).
    reflexivity. }
  assert (Hok : (configure_tardis_logging INFO None true true se).1 = Ok tt).
  { rewrite configure_tardis_logging_result, Hout. reflexivity. }
  pose proof (configure_ok_state INFO None true true se Hok) as Hs2.
  cbv zeta in Hs2. rewrite Hen in Hs2.
  assert (Hfs : outcome_fs_of None true se = fs2).
  { unfold outcome_fs_of. unfold file_outcome in Hout.
    destruct (Path_mkdir (fs se) (log_dir se)); [|discriminate].
    rewrite Hout. reflexivity. }
  rewrite Hfs in Hs2. change (log_target None se) with file in Hs2.
  set (s1 := outcome_state "tardis_em" INFO true se fs2 (Some file)) in Hs2.
  rewrite tardis_em_init_run. fold se.
  rewrite (surjective_pairing (configure_tardis_logging INFO None true true se)).
  rewrite Hok, Hs2.
  rewrite (Logger_info_configured _ INFO true se fs2 (Some file) "TARDIS initialized");
    [|reflexivity..].
  rewrite Hen. eexists. split; [reflexivity|].
  destruct (outcome_world "tardis_em" INFO true se fs2 (Some file))
    as (_ & Hso & Hse & _ & Hnow & _).
  fold s1 in Hso, Hse, Hnow.
  assert (Hfs1 : fs s1 = fs2) by apply outcome_fs.
  assert (Hl1 : logger_at s1 "tardis_em"
                = mkLogger INFO false (disabled (logger_at se "tardis_em"))
                    (handlers (logger_at s1 "tardis_em")))
    by apply outcome_logger.
  assert (Hh1 : handlers_of s1 "tardis_em"
                = (console_view INFO true ++ from_option (file_view INFO) [] (Some file))%list)
    by apply outcome_handlers_of.
  clearbody s1.
  cbn [written stdout stderr fs now loggerDict hstore].
  rewrite Hso, Hse, Hnow, Hfs1.
  split; [rewrite <- app_assoc; reflexivity|]. split; [reflexivity|].
  split.
  - unfold write_file at 2. rewrite Hfile.
    unfold write_file. rewrite lookup_insert_eq, lookup_insert_eq.
    rewrite <- app_assoc. reflexivity.
  - split.
    + change (level (logger_at s1 "tardis_em") = 20). rewrite Hl1. reflexivity.
    + change (handlers_of s1 "tardis_em"
              = [Some (mkHandler (StreamHandler Stdout) 20 (Some f));
                 Some (mkHandler (FileHandler file) 20 (Some f))]).
      rewrite Hh1. reflexivity.
Qed.

Lemma tardis_em_init_logs_two_records_witness :
  ∃ s', tardis_em_init s0 = (Ok tt, s')
    ∧ stdout s'
      = [(Some (mkFormatter log_fmt log_datefmt),
          mkLogRecord "tardis_em" 20 "TARDIS-em logging initialized" t0);
         (Some (mkFormatter log_fmt log_datefmt),
          mkLogRecord "tardis_em" 20 "TARDIS initialized" t0)].
Proof.
  destruct (tardis_em_init_logs_two_records s0) as (s' & Hrun & Hout & _);
    [vm_compute; reflexivity..|].
  exists s'. split; [exact Hrun|exact Hout].
Defined.

(** X10: importing the package raises exactly when the filesystem work for
    the default log file fails, and then with that very exception: nothing
    was logged to either standard stream, and the ["tardis_em"] logger is
    left with the console handler alone.  Otherwise the module body runs to
    its end. *)
Theorem tardis_em_init_fails_with_the_log_file s :
  let rs := tardis_em_init s in
  match file_outcome None s with
  | Ok _ => rs.1 = Ok tt
  | Raise e =>
      rs.1 = Raise e
      ∧ stdout rs.2 = stdout s ∧ stderr rs.2 = stderr s
      ∧ handlers_of rs.2 "tardis_em"
        = [Some (mkHandler (StreamHandler Stdout) 20
                   (Some (mkFormatter log_fmt log_datefmt)))]
  end.
Proof.
  intros rs. subst rs. rewrite tardis_em_init_run. cbv zeta.
  set (se := set_environ (λ e, <["PYTORCH_ENABLE_MPS_FALLBACK" := "1"]> e) s).
  change (file_outcome None s) with (file_outcome None se).
  rewrite configure_tardis_logging_run.
  rewrite (surjective_pairing (setup_logger (Some "tardis_em") INFO None true true se)).
  rewrite setup_logger_result, setup_logger_state.
  change (resolve (Some "tardis_em")) with "tardis_em".
  unfold outcome_file_of.
  destruct (file_outcome None se) as [fs2|e] eqn:Hout.
  - rewrite Logger_info_outcome. unfold Logger_info.
    match goal with
    | |- context [Logger_log ?k ?l ?m ?st] =>
        destruct (Logger_log_same k l m st) as (s3 & -> & _)
    end.
    reflexivity.
  - cbn [fst snd]. split; [reflexivity|].
    destruct (outcome_world "tardis_em" INFO true se (outcome_fs_of None true se) None)
      as (_ & Hso & Hse & _).
    rewrite Hso, Hse, outcome_handlers_of. repeat split.
Qed.

(** ** The default log file name *)

Lemma digit_inj a b : digit a = digit b → (a mod 10 = b mod 10)%nat.
Proof.
  unfold digit. intros H. apply (f_equal nat_of_ascii) in H.
  pose proof (Nat.mod_upper_bound a 10). pose proof (Nat.mod_upper_bound b 10).
  rewrite !nat_ascii_embedding in H by lia. lia.
Qed.

Lemma String_inj c c' s s' : String c s = String c' s' → c = c' ∧ s = s'.
Proof. intros H. injection H. auto. Qed.

Lemma pad2_app a x : pad2 a +:+ x = String (digit (a / 10)) (String (digit a) x).
Proof. reflexivity. Qed.

Lemma pad4_app a x :
  pad4 a +:+ x = String (digit (a / 1000)) (String (digit (a / 100)) (pad2 a +:+ x)).
Proof. reflexivity. Qed.

Lemma pad2_app_inj a b x y :
  (a < 100)%nat → (b < 100)%nat → pad2 a +:+ x = pad2 b +:+ y → a = b ∧ x = y.
Proof.
  intros Ha Hb H. rewrite !pad2_app in H.
  apply String_inj in H as [H1 H]. apply String_inj in H as [H0 Hxy].
  apply digit_inj in H1, H0. split; [|exact Hxy].
  rewrite (Nat.mod_small (a / 10) 10), (Nat.mod_small (b / 10) 10) in H1
    by (apply Nat.Div0.div_lt_upper_bound; lia).
  rewrite (Nat.div_mod_eq a 10), (Nat.div_mod_eq b 10). congruence.
Qed.

Lemma pad4_app_inj a b x y :
  (a < 100 * 100)%nat → (b < 100 * 100)%nat →
  pad4 a +:+ x = pad4 b +:+ y → a = b ∧ x = y.
Proof.
  intros Ha Hb H. rewrite !pad4_app in H.
  apply String_inj in H as [H3 H]. apply String_inj in H as [H2 H].
  rewrite !pad2_app in H.
  apply String_inj in H as [H1 H]. apply String_inj in H as [H0 Hxy].
  apply digit_inj in H3, H2, H1, H0. split; [|exact Hxy].
  assert (Hlow : (a mod 100 = b mod 100)%nat).
  { change 100%nat with (10 * 10)%nat.
    rewrite (Nat.Div0.mod_mul_r a 10 10), (Nat.Div0.mod_mul_r b 10 10). congruence. }
  assert (Hhigh : (a / 100 = b / 100)%nat).
  { rewrite (Nat.div_mod_eq (a / 100) 10), (Nat.div_mod_eq (b / 100) 10).
    rewrite !Nat.Div0.div_div. change (100 * 10)%nat with 1000%nat.
    rewrite (Nat.mod_small (a / 1000) 10), (Nat.mod_small (b / 1000) 10) in H3
      by (apply Nat.Div0.div_lt_upper_bound; lia).
    congruence. }
  rewrite (Nat.div_mod_eq a 100), (Nat.div_mod_eq b 100). congruence.
Qed.

Lemma cons_eq_inv {A} (x y : A) (l l' : list A) : x :: l = y :: l' → x = y ∧ l = l'.
Proof. intros H. injection H. auto. Qed.

Lemma append_cancel_l p x y : p +:+ x = p +:+ y → x = y.
Proof.
  induction p as [|c p IH]; cbn; [auto|].
  intros H. apply String_inj in H as [_ H]. auto.
Qed.

Lemma default_name_shape t :
  "tardis_" +:+ strftime "%Y%m%d_%H%M%S" t +:+ ".log"
  = "tardis_"
    +:+ (pad4 (year t)
         +:+ (pad2 (month t)
              +:+ (pad2 (day t)
                   +:+ String "_"
                         (pad2 (hour t)
                          +:+ (pad2 (minute t) +:+ (pad2 (second t) +:+ ".log")))))).
Proof. reflexivity. Qed.

(** X11: the default log file name determines the clock reading to the
    second: under one home directory, two calls of [setup_logger] without a
    [log_file] target the same file exactly when the clock shows the same
    second, so a later run never appends to the log of an earlier second. *)
Theorem default_log_file_per_second s1 s2 :
  clock_valid (now s1) → clock_valid (now s2) →
  (log_target None s1 = log_target None s2
   ↔ home s1 = home s2 ∧ now s1 = now s2).
Proof.
  intros (Hy1 & Hm1 & Hd1 & HH1 & HM1 & HS1) (Hy2 & Hm2 & Hd2 & HH2 & HM2 & HS2).
  unfold log_target, default_log_file, log_dir, path_div. split.
  - intros H. apply cons_eq_inv in H as [Hname H].
    apply cons_eq_inv in H as [_ H]. apply cons_eq_inv in H as [_ Hhome].
    split; [exact Hhome|].
    rewrite !default_name_shape in Hname. apply append_cancel_l in Hname.
    apply pad4_app_inj in Hname as [Ey Hname]; [|assumption..].
    apply pad2_app_inj in Hname as [Em Hname]; [|assumption..].
    apply pad2_app_inj in Hname as [Ed Hname]; [|assumption..].
    apply String_inj in Hname as [_ Hname].
    apply pad2_app_inj in Hname as [EH Hname]; [|assumption..].
    apply pad2_app_inj in Hname as [EM Hname]; [|assumption..].
    apply pad2_app_inj in Hname as [ES _]; [|assumption..].
    destruct (now s1), (now s2). cbn in *. congruence.
  - intros [-> ->]. reflexivity.
Qed.

Lemma default_log_file_per_second_witness :
  log_target None s0 ≠ log_target None (set_now (Datetime 2025 3 7 9 5 43) s0).
Proof.
  intros H.
  apply (default_log_file_per_second s0 (set_now (Datetime 2025 3 7 9 5 43) s0)) in H.
  - destruct H as [_ H]. discriminate H.
  - repeat split; apply Nat.ltb_lt; vm_compute; reflexivity.
  - repeat split; apply Nat.ltb_lt; vm_compute; reflexivity.
Defined.

(** ** [format_choices] *)

(** X12: [format_choices] holds one entry for every pair of an input format
    and an output format and nothing else, each pair once, inputs outermost:
    the entry for input number [i] and output number [j] sits at position
    [8 * i + j], so that the list has forty distinct entries. *)
Theorem format_choices_pairs :
  let ins := ["None"; "am"; "mrc"; "tif"; "npy"] in
  let outs := ["None"; "am"; "mrc"; "tif"; "npy"; "amSG"; "csv"; "stl"] in
  (∀ c, c ∈ format_choices
        ↔ ∃ p q, p ∈ ins ∧ q ∈ outs ∧ c = p +:+ "_" +:+ q)
  ∧ (∀ i j p q, ins !! i = Some p → outs !! j = Some q →
       format_choices !! (8 * i + j)%nat = Some (p +:+ "_" +:+ q))
  ∧ NoDup format_choices
  ∧ length format_choices = 40%nat.
Proof.
  intros ins outs. split; [|split; [|split]].
  - intros c. unfold format_choices. rewrite list_elem_of_bind. split.
    + intros (p & Hc & Hp). rewrite list_elem_of_bind in Hc.
      destruct Hc as (q & Hc & Hq). apply list_elem_of_singleton in Hc.
      exists p, q. auto.
    + intros (p & q & Hp & Hq & ->). exists p. split; [|exact Hp].
      rewrite list_elem_of_bind. exists q. split; [|exact Hq].
      apply list_elem_of_singleton. reflexivity.
  - intros i j p q Hi Hj.
    do 5 (destruct i as [|i]; [injection Hi as <-;
      do 8 (destruct j as [|j]; [injection Hj as <-; reflexivity|]);
      discriminate Hj|]).
    discriminate Hi.
  - apply (bool_decide_unpack (NoDup format_choices)). vm_compute. exact I.
  - reflexivity.
Qed.

(** ** A logger configured without outputs *)

Lemma chain_head key : ∃ tl, chain key = key :: tl.
Proof. unfold chain. destruct (String.eqb key root_name); eauto. Qed.

(** X13: switching both outputs off does not silence a logger.  After
    [setup_logger] with [console_output=False] and [file_output=False], a
    record the logger lets through reaches no handler of the module, and the
    [logging] library falls back on its handler of last resort: a record at
    [WARNING] or above is written to standard error, with the library's
    default formatter; one below [WARNING] is written nowhere.  Standard
    output and the filesystem are untouched either way. *)
Theorem no_outputs_fall_back_to_stderr name lvl log_file s lv msg :
  lvl ≠ 0 → (lvl ≤ lv)%Z →
  disabled (logger_at s (resolve name)) = false →
  (manager_disable s < lv)%Z →
  let s1 := (setup_logger name lvl log_file false false s).2 in
  let r := mkLogRecord (resolve name) lv msg (now s) in
  ∃ s2, Logger_log (resolve name) lv msg s1 = (Ok tt, s2)
    ∧ stdout s2 = stdout s ∧ fs s2 = fs s
    ∧ stderr s2 = (stderr s ++ if Z.leb WARNING lv then [(None, r)] else [])%list.
Proof.
  intros Hlvl Hle Hdis Hmd s1 r. subst s1.
  rewrite setup_logger_no_file. cbn [snd with_console].
  set (key := resolve name) in *. set (s1 := cleared key lvl s).
  assert (Hl : logger_at s1 key = mkLogger lvl false (disabled (logger_at s key)) []).
  { unfold logger_at at 1. cbn. rewrite lookup_insert_eq. reflexivity. }
  assert (Hen : isEnabledFor s1 key lv = true).
  { unfold isEnabledFor, getEffectiveLevel. rewrite Hl. cbn [disabled]. rewrite Hdis.
    change (manager_disable s1) with (manager_disable s).
    replace (Z.leb lv (manager_disable s)) with false by (symmetry; apply Z.leb_gt; lia).
    destruct (chain_head key) as [tl ->]. cbn [effective_level].
    rewrite Hl. cbn [level].
    destruct (Z.eqb_spec lvl 0) as [E|_]; [contradiction|].
    apply Z.leb_le, Hle. }
  unfold Logger_log. rewrite Hen, Hl. cbn [disabled]. rewrite Hdis.
  unfold callHandlers.
  rewrite chain_handlers_own by (rewrite Hl; reflexivity).
  rewrite Hl. cbn [handlers r_levelno].
  change (now s1) with (now s). fold r.
  eexists. split; [reflexivity|].
  destruct (Z.leb WARNING lv); cbn.
  - repeat split.
  - rewrite app_nil_r. repeat split.
Qed.

Lemma no_outputs_fall_back_to_stderr_witness :
  ∃ s2, Logger_log "tardis_em" 40 "disk full"
          (setup_logger (Some "tardis_em") 20 None false false s0).2 = (Ok tt, s2)
    ∧ stderr s2 = [(None, mkLogRecord "tardis_em" 40 "disk full" t0)].
Proof.
  destruct (no_outputs_fall_back_to_stderr (Some "tardis_em") 20 None s0 40 "disk full")
    as (s2 & Hrun & _ & _ & Herr); [discriminate|lia|reflexivity|cbn; lia|].
  exists s2. split; [exact Hrun|exact Herr].
Defined.
